(** * aws-photos-backup: the incremental backup orchestrator

    A shallow embedding of [internal/photosbackup] (scanning, grouping,
    ledger) and of [cmd/photos_backup.go] (the per-group upload pipeline),
    with the properties of the orchestrator stated over it.

    Conventions.
    - Go [string] is [string]; [map[string]T] is [gmap string T] with the
      zero value of [T] returned for a missing key.
    - Go [int] is 64-bit: [Z] with the wrap-around of [++] written out.
    - [time.Time] is the number of nanoseconds since Go's zero time
      (January 1, year 1, 00:00:00 UTC); the location is fixed to UTC.
    - The operating system, the EXIF decoder, the zip writer and the S3
      client are collaborators: their answers are read from records
      ([FileInfo], [Env]); every call is logged as an [Event]. *)

From Stdlib Require Import ZArith Ascii String List Lia Permutation.
From Stdlib Require Import DecimalString.
From stdpp Require Import base gmap strings list fin_maps.

Local Open Scope string_scope.
Local Open Scope list_scope.
Local Open Scope Z_scope.

(* ===================================================================== *)
(** ** Go's [strings], [path/filepath] and integer formatting            *)
(* ===================================================================== *)

Module GoStr.

Definition is_upper (c : ascii) : bool :=
  (65 <=? nat_of_ascii c)%nat && (nat_of_ascii c <=? 90)%nat.
Definition is_lower (c : ascii) : bool :=
  (97 <=? nat_of_ascii c)%nat && (nat_of_ascii c <=? 122)%nat.

Definition lower_ascii (c : ascii) : ascii :=
  if is_upper c then ascii_of_nat (nat_of_ascii c + 32) else c.
Definition upper_ascii (c : ascii) : ascii :=
  if is_lower c then ascii_of_nat (nat_of_ascii c - 32) else c.

Fixpoint map_string (f : ascii -> ascii) (s : string) : string :=
  match s with
  | EmptyString => EmptyString
  | String c r => String (f c) (map_string f r)
  end.

(** [strings.ToLower] / [strings.ToUpper] on the ASCII range; bytes of
    multi-byte runes are left as they are. *)
Definition ToLower (s : string) : string := map_string lower_ascii s.
Definition ToUpper (s : string) : string := map_string upper_ascii s.

Definition is_sep (c : ascii) : bool := Ascii.eqb c "/"%char.
Definition is_dot (c : ascii) : bool := Ascii.eqb c "."%char.

(** [filepath.Ext]: the suffix beginning at the final dot of the final
    path element, empty when that element has no dot.  [acc] is the
    candidate found so far; a separator discards it. *)
Fixpoint Ext_from (s acc : string) : string :=
  match s with
  | EmptyString => acc
  | String c r =>
      if is_sep c then Ext_from r EmptyString
      else if is_dot c then Ext_from r s
      else Ext_from r acc
  end.
Definition Ext (path : string) : string := Ext_from path EmptyString.

(** [filepath.Base]: the last element of the path, trailing separators
    removed first; "." for the empty path and "/" for one made of
    separators only. *)
Fixpoint last_elem (s cur last : string) : string :=
  match s with
  | EmptyString => if String.eqb cur "" then last else cur
  | String c r =>
      if is_sep c
      then last_elem r "" (if String.eqb cur "" then last else cur)
      else last_elem r (cur +:+ String c "") last
  end.
Definition Base (path : string) : string :=
  if String.eqb path "" then "."
  else let b := last_elem path "" "" in
       if String.eqb b "" then "/" else b.

(** [strings.Split(s, sep)[0]] for a one-byte separator. *)
Fixpoint before_sep (sep : ascii) (s : string) : string :=
  match s with
  | EmptyString => EmptyString
  | String c r => if Ascii.eqb c sep then EmptyString
                  else String c (before_sep sep r)
  end.

(** [strings.ReplaceAll] for a non-empty [old]: non-overlapping matches,
    left to right.  [skip] counts the bytes of a match still to drop. *)
Fixpoint replace_go (old new s : string) (skip : nat) : string :=
  match s with
  | EmptyString => EmptyString
  | String c r =>
      match skip with
      | S k => replace_go old new r k
      | O => if String.prefix old s
             then new +:+ replace_go old new r (String.length old - 1)
             else String c (replace_go old new r 0)
      end
  end.
Definition ReplaceAll (s old new : string) : string := replace_go old new s 0.

(** Decimal digits of a natural number. *)
Definition digits (n : Z) : string :=
  NilZero.string_of_uint (N.to_uint (Z.to_N n)).

Fixpoint zeros (n : nat) : string :=
  match n with O => "" | S k => String "0"%char (zeros k) end.

(** [appendInt] of package [time]: a sign, then the digits padded with
    zeros to [width] (the sign is not counted). *)
Definition appendInt (x : Z) (width : nat) : string :=
  let d := digits (Z.abs x) in
  (if x <? 0 then "-" else "") +:+ zeros (width - String.length d) +:+ d.

(** [%0Nd] of package [fmt]: the sign counts towards the width. *)
Definition fmt_0d (width : nat) (x : Z) : string :=
  let d := digits (Z.abs x) in
  if x <? 0
  then "-" +:+ zeros (width - 1 - String.length d) +:+ d
  else zeros (width - String.length d) +:+ d.

End GoStr.

(* ===================================================================== *)
(** ** [time.Time]                                                        *)
(* ===================================================================== *)

Module GoTime.

(** Nanoseconds since January 1, year 1, 00:00:00 UTC. *)
Definition Time := Z.

Definition Second : Z := 1000000000.
Definition zero : Time := 0.

Definition IsZero (t : Time) : bool := t =? 0.
(** [t.After(u)]: [t] is strictly later than [u]. *)
Definition After (t u : Time) : bool := u <? t.

Definition absSec (t : Time) : Z := t / Second.
Definition absDays (t : Time) : Z := absSec t / 86400.
Definition secOfDay (t : Time) : Z := absSec t mod 86400.

(** Proleptic Gregorian date of a day count (day 0 = 0001-01-01). *)
Definition civil (days : Z) : Z * Z * Z :=
  let z := days + 306 in
  let era := z / 146097 in
  let doe := z mod 146097 in
  let yoe := (doe - doe / 1460 + doe / 36524 - doe / 146096) / 365 in
  let doy := doe - (365 * yoe + yoe / 4 - yoe / 100) in
  let mp := (5 * doy + 2) / 153 in
  let d := doy - (153 * mp + 2) / 5 + 1 in
  let m := if mp <? 10 then mp + 3 else mp - 9 in
  let y := yoe + era * 400 + (if m <=? 2 then 1 else 0) in
  (y, m, d).

Definition Year (t : Time) : Z := fst (fst (civil (absDays t))).
Definition Month (t : Time) : Z := snd (fst (civil (absDays t))).
Definition Day (t : Time) : Z := snd (civil (absDays t)).
Definition Hour (t : Time) : Z := secOfDay t / 3600.
Definition Minute (t : Time) : Z := (secOfDay t mod 3600) / 60.
Definition Sec (t : Time) : Z := secOfDay t mod 60.

(** [t.Format("20060102T150405")]. *)
Definition Format_compact (t : Time) : string :=
  GoStr.appendInt (Year t) 4 +:+ GoStr.appendInt (Month t) 2 +:+
  GoStr.appendInt (Day t) 2 +:+ "T" +:+
  GoStr.appendInt (Hour t) 2 +:+ GoStr.appendInt (Minute t) 2 +:+
  GoStr.appendInt (Sec t) 2.

(** The instant of a UTC date and time of day (inverse of [civil]). *)
Definition days_from_civil (y m d : Z) : Z :=
  let y' := if m <=? 2 then y - 1 else y in
  let era := y' / 400 in
  let yoe := y' - era * 400 in
  let mp := if m <=? 2 then m + 9 else m - 3 in
  let doy := (153 * mp + 2) / 5 + d - 1 in
  let doe := yoe * 365 + yoe / 4 - yoe / 100 + doy in
  era * 146097 + doe - 306.

Definition Date (y m d hh mm ss : Z) : Time :=
  ((days_from_civil y m d * 86400) + hh * 3600 + mm * 60 + ss) * Second.

End GoTime.

Arguments GoStr.ToLower : simpl never.
Arguments GoStr.ToUpper : simpl never.
Arguments GoStr.Ext : simpl never.
Arguments GoStr.Base : simpl never.
Arguments GoStr.before_sep : simpl never.
Arguments GoStr.ReplaceAll : simpl never.
Arguments GoStr.appendInt : simpl never.
Arguments GoStr.fmt_0d : simpl never.
Arguments GoTime.Format_compact : simpl never.
Arguments GoTime.Year : simpl never.
Arguments GoTime.Month : simpl never.
Arguments GoTime.After : simpl never.

(* ===================================================================== *)
(** ** The collaborators: file system, EXIF decoder                      *)
(* ===================================================================== *)

(** A Go [error]: [None] is [nil]. *)
Definition error := option string.

Definition is_nil (e : error) : bool :=
  match e with None => true | Some _ => false end.

(** Go [int]: two's complement on 64 bits. *)
Definition wrap64 (z : Z) : Z := (z + 2 ^ 63) mod 2 ^ 64 - 2 ^ 63.
Definition int_incr (x : Z) : Z := wrap64 (x + 1).

(** What [exif.Decode] found in a file that it could decode. *)
Record Exif := {
  exif_DateTime : option GoTime.Time;   (* [x.DateTime()], [None] on error *)
  exif_Model : option string            (* [x.Get(exif.Model)] *)
}.

(** What the operating system and the decoder answer for one path. *)
Record FileInfo := {
  fi_open : bool;                       (* [os.Open] succeeds *)
  fi_exif : option Exif;                (* [exif.Decode], [None] on error *)
  fi_stat : option GoTime.Time;         (* [os.Stat]: the modification time *)
  fi_copy : bool                        (* [io.Copy] of the content succeeds *)
}.

(** The files by path; a path that is absent does not exist. *)
Abbreviation FS := (gmap string FileInfo).

(** A directory tree as [filepath.WalkDir] reads it: a directory lists
    its entries in lexical order, and [os.ReadDir] may fail on it. *)
#[warnings="-register-all"] Inductive Tree :=
| TFile (name : string)
| TDir (name : string) (readErr : bool) (entries : list Tree).

Definition tree_name (t : Tree) : string :=
  match t with TFile n => n | TDir n _ _ => n end.

(** One call of the walk function: [fn(path, d, err)]. *)
Record Visit := {
  v_path : string;
  v_isDir : bool;                       (* [d.IsDir()] *)
  v_err : bool                          (* [err != nil] *)
}.

(** [walkDir] of [path/filepath] for a walk function that always returns
    [nil]: the entry itself, a second call on the directory when
    [os.ReadDir] failed, then the entries that were read. *)
Fixpoint walkDir (path : string) (t : Tree) {struct t} : list Visit :=
  match t with
  | TFile _ => [ {| v_path := path; v_isDir := false; v_err := false |} ]
  | TDir _ rerr es =>
      {| v_path := path; v_isDir := true; v_err := false |} ::
      (if rerr then [ {| v_path := path; v_isDir := true; v_err := true |} ]
       else []) ++
      (fix walkEntries (l : list Tree) : list Visit :=
         match l with
         | [] => []
         | c :: r => walkDir (path +:+ "/" +:+ tree_name c) c ++ walkEntries r
         end) es
  end.

(** [filepath.WalkDir(root, fn)]: when [os.Lstat(root)] fails ([None]) the
    function is called once with the error and a nil entry. *)
Definition WalkDir (root : string) (lib : option Tree) : list Visit :=
  match lib with
  | None => [ {| v_path := root; v_isDir := false; v_err := true |} ]
  | Some t => walkDir root t
  end.

(** The disk of one run: the tree found at a root path and the files. *)
Record Disk := {
  d_tree : string -> option Tree;
  d_files : FS
}.

(* ===================================================================== *)
(** ** Events                                                            *)
(* ===================================================================== *)

Inductive Mutex := Mu | ProgressMu.

Inductive Event :=
| EvGetPhotoMeta (path : string)            (* scan: [getPhotoMeta(path)] *)
| EvWarnDuplicate (path : string)           (* "[WARN] Duplicate photo skipped" *)
| EvSemAcquire
| EvSemRelease
| EvLock (m : Mutex)
| EvUnlock (m : Mutex)
| EvZipFiles (zipName : string) (files : list string) (ok : bool)
| EvUploadToS3 (key zipPath : string) (ok : bool)
| EvWarnAttempt (attempt : Z) (zipName : string)
| EvSleep (seconds : Z)
| EvErrorZip (zipName : string)             (* "[ERROR] Failed to zip" *)
| EvErrorUpload (zipName : string)          (* "[ERROR] Failed to upload ... after 3 attempts" *)
| EvSkipVerify (zipName : string)           (* "[INFO] Skipping checksum verification" *)
| EvFileSHA256 (zipName : string)
| EvS3SHA256 (key : string)
| EvErrorLocalSum (zipName : string)        (* "[ERROR] Could not compute checksum" *)
| EvErrorRemoteSum (zipName : string)       (* "[ERROR] Could not verify checksum" *)
| EvErrorMismatch (zipName : string)        (* "[ERROR] Checksum mismatch" *)
| EvChecksumOk (zipName : string)           (* "[OK] Checksum verified" *)
| EvLedgerStore (ym zipName : string)       (* [uploadState.CompletedMonths[ym] = zipName] *)
| EvSaveUploadState (ok : bool)
| EvUpdateBar
| EvRemove (zipName : string)               (* [os.Remove(zipName)] *)
| EvUpdateLastUploadTime (t : GoTime.Time).

(* ===================================================================== *)
(** ** Package [photosbackup]                                            *)
(* ===================================================================== *)

Module photosbackup.

Record Config := {
  S3Bucket : string;
  PhotosLibrary : string;
  ZipFileName : string;
  LastUploadFile : string;
  S3KeyFormat : string;
  LogLevel : string;
  Region : string;
  TestModeLimit : Z;
  StorageClass : string;
  AllowedExtensions : list string;
  MaxConcurrentUploads : Z
}.

(** [PhotoMeta]; the two GPS coordinates (floating point) take part in no
    decision and are left out. *)
Record PhotoMeta := {
  Path : string;
  Taken : GoTime.Time;
  Camera : string
}.

Definition set_Taken (m : PhotoMeta) (t : GoTime.Time) : PhotoMeta :=
  {| Path := Path m; Taken := t; Camera := Camera m |}.
Definition set_Camera (m : PhotoMeta) (c : string) : PhotoMeta :=
  {| Path := Path m; Taken := Taken m; Camera := c |}.

(** [getPhotoMeta]: EXIF date and camera, or the modification time when
    the EXIF date is missing.  The only error is that of [os.Open]. *)
Definition getPhotoMeta (fs : FS) (path : string) : PhotoMeta * error :=
  let meta := {| Path := path; Taken := GoTime.zero; Camera := "" |} in
  match fs !! path with
  | None => (meta, Some "open: no such file or directory")
  | Some fi =>
      if negb (fi_open fi) then (meta, Some "open: permission denied")
      else
        let meta :=
          match fi_exif fi with
          | Some x =>
              let meta := match exif_DateTime x with
                          | Some dt => set_Taken meta dt
                          | None => meta
                          end in
              match exif_Model x with
              | Some cam => set_Camera meta cam
              | None => meta
              end
          | None => meta
          end in
        let meta :=
          if GoTime.IsZero (Taken meta)
          then match fi_stat fi with
               | Some mt => set_Taken meta mt
               | None => meta
               end
          else meta in
        (meta, None)
  end.

(** State of the closure passed to [filepath.WalkDir] in [FindNewPhotos],
    with the log of what it called and printed. *)
Record ScanState := {
  files : list string;
  seen : gmap string bool;
  excluded : gmap string Z;
  scan_log : list Event
}.

Definition scan_init : ScanState :=
  {| files := []; seen := ∅; excluded := ∅; scan_log := [] |}.

(** [allowed[strings.ToLower(ext)] = true] for each configured extension. *)
Definition allowed_of (allowedExts : list string) : gmap string bool :=
  fold_left (fun m ext => <[GoStr.ToLower ext := true]> m) allowedExts ∅.

(** Reading a Go map: the zero value for a missing key. *)
Definition get_bool (m : gmap string bool) (k : string) : bool :=
  default false (m !! k).
Definition get_int (m : gmap string Z) (k : string) : Z :=
  default 0 (m !! k).

(** The dedup key built in [FindNewPhotos]. *)
Definition dedup_key (taken : GoTime.Time) (path : string) : string :=
  GoTime.Format_compact taken +:+ "-" +:+ GoStr.Base path.

(** The walk function of [FindNewPhotos]. *)
Definition visit (fs : FS) (since : GoTime.Time) (allowed : gmap string bool)
    (st : ScanState) (v : Visit) : ScanState :=
  if v_err v then st
  else
    let path := v_path v in
    let ext := GoStr.ToLower (GoStr.Ext path) in
    if negb (v_isDir v) && get_bool allowed ext then
      let '(meta, err) := getPhotoMeta fs path in
      let log := scan_log st ++ [EvGetPhotoMeta path] in
      if is_nil err && GoTime.After (Taken meta) since then
        let key := dedup_key (Taken meta) path in
        if negb (get_bool (seen st) key) then
          {| files := files st ++ [path];
             seen := <[key := true]> (seen st);
             excluded := excluded st;
             scan_log := log |}
        else
          {| files := files st; seen := seen st; excluded := excluded st;
             scan_log := log ++ [EvWarnDuplicate path] |}
      else
        {| files := files st; seen := seen st; excluded := excluded st;
           scan_log := log |}
    else if negb (v_isDir v) then
      {| files := files st; seen := seen st;
         excluded := <[ext := int_incr (get_int (excluded st) ext)]> (excluded st);
         scan_log := scan_log st |}
    else st.

Definition scan (d : Disk) (root : string) (since : GoTime.Time)
    (allowedExts : list string) : ScanState :=
  fold_left (visit (d_files d) since (allowed_of allowedExts))
            (WalkDir root (d_tree d root)) scan_init.

(** [FindNewPhotos]: the new files and the excluded-extension counts. *)
Definition FindNewPhotos (d : Disk) (root : string) (since : GoTime.Time)
    (allowedExts : list string) : list string * gmap string Z :=
  let st := scan d root since allowedExts in (files st, excluded st).

(** The group key of [GroupPhotosByYearMonth]: [Sprintf("%04d-%02d", ...)]. *)
Definition group_key (taken : GoTime.Time) : string :=
  GoStr.fmt_0d 4 (GoTime.Year taken) +:+ "-" +:+ GoStr.fmt_0d 2 (GoTime.Month taken).

Definition get_list (m : gmap string (list string)) (k : string) : list string :=
  default [] (m !! k).

Definition group_step (fs : FS) (result : gmap string (list string))
    (file : string) : gmap string (list string) :=
  let '(meta, err) := getPhotoMeta fs file in
  if negb (is_nil err) then result
  else
    let key := group_key (Taken meta) in
    <[key := get_list result key ++ [file]]> result.

(** [GroupPhotosByYearMonth]. *)
Definition GroupPhotosByYearMonth (fs : FS) (fileList : list string)
    : gmap string (list string) :=
  fold_left (group_step fs) fileList ∅.

End photosbackup.

Arguments photosbackup.getPhotoMeta : simpl never.
Arguments photosbackup.dedup_key : simpl never.
Arguments photosbackup.group_key : simpl never.
Arguments photosbackup.visit : simpl never.
Arguments photosbackup.group_step : simpl never.
Arguments photosbackup.allowed_of : simpl never.

(* ===================================================================== *)
(** ** The progress ledger ([upload_state.go])                           *)
(* ===================================================================== *)

Module ledger.

Record UploadState := {
  CompletedMonths : gmap string string   (* map[year-month]zipName *)
}.

(** The ledger file as [LoadUploadState] meets it.  [Holds m e]: the file
    opens, and decoding its bytes into a state with an empty map leaves
    the map [m] and returns an error iff [e]. *)
Inductive LedgerFile :=
| Missing                                (* [os.IsNotExist] *)
| OpenFails                              (* any other error of [os.Open] *)
| Holds (months : gmap string string) (decodeErr : bool).

(** [LoadUploadState]: the state pointer ([None] is [nil]) and the error.
    The result of [Decode] is dropped. *)
Definition LoadUploadState (disk : string -> LedgerFile) (path : string)
    : option UploadState * error :=
  let state := {| CompletedMonths := ∅ |} in
  match disk path with
  | Missing => (Some state, None)
  | OpenFails => (None, Some "open: permission denied")
  | Holds months _ => (Some {| CompletedMonths := months |}, None)
  end.

(** How one call of [SaveUploadState] ends. *)
Inductive SaveOutcome := SaveOk | CreateFails | EncodeFails.

(** [SaveUploadState]: [os.Create] truncates the file, [Encode] writes
    the whole map.  A failed [Encode] leaves a truncated file. *)
Definition SaveUploadState (o : SaveOutcome) (disk : string -> LedgerFile)
    (path : string) (state : UploadState) : (string -> LedgerFile) * error :=
  match o with
  | CreateFails => (disk, Some "create failed")
  | EncodeFails =>
      (fun p => if String.eqb p path then Holds ∅ true else disk p,
       Some "write failed")
  | SaveOk =>
      (fun p => if String.eqb p path then Holds (CompletedMonths state) false
                else disk p,
       None)
  end.

End ledger.

(* ===================================================================== *)
(** ** The watermark file and the remaining collaborators               *)
(* ===================================================================== *)

(** The last-upload file: unreadable, unparsable, or the RFC 3339 text of
    an instant (a whole number of seconds). *)
Inductive StampFile :=
| NoStamp
| BadStamp
| Stamp (t : GoTime.Time).

(** [GetLastUploadTime]. *)
Definition GetLastUploadTime (disk : string -> StampFile) (path : string)
    : GoTime.Time :=
  match disk path with
  | NoStamp => GoTime.zero
  | BadStamp => GoTime.zero
  | Stamp t => t
  end.

(** [time.RFC3339] has second precision. *)
Definition truncate_second (t : GoTime.Time) : GoTime.Time :=
  (t / GoTime.Second) * GoTime.Second.

(** [UpdateLastUploadTime]; the error of [os.WriteFile] is dropped. *)
Definition UpdateLastUploadTime (writeOk : bool) (now : GoTime.Time)
    (disk : string -> StampFile) (path : string) : string -> StampFile :=
  if writeOk
  then fun p => if String.eqb p path then Stamp (truncate_second now) else disk p
  else disk.

(** The answers of the collaborators during one run. *)
Record Env := {
  e_create : string -> bool;             (* [os.Create(name)] succeeds *)
  e_zip_entry : string -> string -> bool;(* [zipWriter.Create] for a file *)
  e_put : string -> nat -> bool;         (* [PutObject]: key, n-th call on it *)
  e_local_sum : string -> option string; (* SHA-256 of a local file *)
  e_remote_sum : string -> option string;(* download and SHA-256 of a key *)
  e_save : gmap string string -> ledger.SaveOutcome;
  e_write_stamp : bool                   (* [os.WriteFile] of the watermark *)
}.

(* ===================================================================== *)
(** ** [cmd/photos_backup.go]                                            *)
(* ===================================================================== *)

Module backup.

Import photosbackup.

(** What the goroutines of [main] share, and the world around them. *)
Record St := {
  st_ledger : string -> ledger.LedgerFile;  (* ledger files on disk *)
  st_local : gset string;                   (* files of the working directory *)
  st_clock : GoTime.Time;
  st_puts : gmap string nat;                (* [PutObject] calls so far, by key *)
  uploadState : gmap string string;         (* [uploadState.CompletedMonths] *)
  failedZips : Z;
  failedUploads : Z;
  fileProgress : Z;
  st_trace : list Event
}.

Definition M (A : Type) : Type := St -> A * St.

Definition ret {A} (a : A) : M A := fun s => (a, s).
Definition bind {A B} (m : M A) (k : A -> M B) : M B :=
  fun s => let '(a, s') := m s in k a s'.

Declare Scope go_scope.
Delimit Scope go_scope with go.
Notation "'let!' x ':=' m 'in' k" := (bind m (fun x => k))
  (at level 10, x name, m at level 100, k at level 200) : go_scope.
Notation "m ;; k" := (bind m (fun _ => k))
  (at level 100, k at level 200, right associativity) : go_scope.
Local Open Scope go_scope.

Definition get : M St := fun s => (s, s).
Definition modify (f : St -> St) : M unit := fun s => (tt, f s).

Definition with_ledger (v : string -> ledger.LedgerFile) (s : St) : St :=
  {| st_ledger := v; st_local := st_local s; st_clock := st_clock s;
     st_puts := st_puts s; uploadState := uploadState s;
     failedZips := failedZips s; failedUploads := failedUploads s;
     fileProgress := fileProgress s; st_trace := st_trace s |}.
Definition with_local (v : gset string) (s : St) : St :=
  {| st_ledger := st_ledger s; st_local := v; st_clock := st_clock s;
     st_puts := st_puts s; uploadState := uploadState s;
     failedZips := failedZips s; failedUploads := failedUploads s;
     fileProgress := fileProgress s; st_trace := st_trace s |}.
Definition with_clock (v : GoTime.Time) (s : St) : St :=
  {| st_ledger := st_ledger s; st_local := st_local s; st_clock := v;
     st_puts := st_puts s; uploadState := uploadState s;
     failedZips := failedZips s; failedUploads := failedUploads s;
     fileProgress := fileProgress s; st_trace := st_trace s |}.
Definition with_puts (v : gmap string nat) (s : St) : St :=
  {| st_ledger := st_ledger s; st_local := st_local s; st_clock := st_clock s;
     st_puts := v; uploadState := uploadState s;
     failedZips := failedZips s; failedUploads := failedUploads s;
     fileProgress := fileProgress s; st_trace := st_trace s |}.
Definition with_uploadState (v : gmap string string) (s : St) : St :=
  {| st_ledger := st_ledger s; st_local := st_local s; st_clock := st_clock s;
     st_puts := st_puts s; uploadState := v;
     failedZips := failedZips s; failedUploads := failedUploads s;
     fileProgress := fileProgress s; st_trace := st_trace s |}.
Definition with_failedZips (v : Z) (s : St) : St :=
  {| st_ledger := st_ledger s; st_local := st_local s; st_clock := st_clock s;
     st_puts := st_puts s; uploadState := uploadState s;
     failedZips := v; failedUploads := failedUploads s;
     fileProgress := fileProgress s; st_trace := st_trace s |}.
Definition with_failedUploads (v : Z) (s : St) : St :=
  {| st_ledger := st_ledger s; st_local := st_local s; st_clock := st_clock s;
     st_puts := st_puts s; uploadState := uploadState s;
     failedZips := failedZips s; failedUploads := v;
     fileProgress := fileProgress s; st_trace := st_trace s |}.
Definition with_fileProgress (v : Z) (s : St) : St :=
  {| st_ledger := st_ledger s; st_local := st_local s; st_clock := st_clock s;
     st_puts := st_puts s; uploadState := uploadState s;
     failedZips := failedZips s; failedUploads := failedUploads s;
     fileProgress := v; st_trace := st_trace s |}.
Definition with_trace (v : list Event) (s : St) : St :=
  {| st_ledger := st_ledger s; st_local := st_local s; st_clock := st_clock s;
     st_puts := st_puts s; uploadState := uploadState s;
     failedZips := failedZips s; failedUploads := failedUploads s;
     fileProgress := fileProgress s; st_trace := v |}.

Definition emit (e : Event) : M unit :=
  modify (fun s => with_trace (st_trace s ++ [e]) s).

Definition Lock (m : Mutex) : M unit := emit (EvLock m).
Definition Unlock (m : Mutex) : M unit := emit (EvUnlock m).

(** [time.Now()] reads the clock; [time.Sleep] moves it. *)
Definition Now : M GoTime.Time := fun s => (st_clock s, s).
Definition Sleep (seconds : Z) : M unit :=
  emit (EvSleep seconds) ;;
  modify (fun s => with_clock (st_clock s + seconds * GoTime.Second) s).

(** [addFileToZip]. *)
Definition addFileToZip (env : Env) (fs : FS) (zipName filename : string)
    : error :=
  match fs !! filename with
  | None => Some "open: no such file or directory"
  | Some fi =>
      if negb (fi_open fi) then Some "open: permission denied"
      else if negb (e_zip_entry env zipName filename) then Some "zip: create"
      else if negb (fi_copy fi) then Some "copy failed"
      else None
  end.

Fixpoint addFiles (env : Env) (fs : FS) (zipName : string)
    (fileList : list string) : error :=
  match fileList with
  | [] => None
  | f :: r =>
      match addFileToZip env fs zipName f with
      | Some e => Some e
      | None => addFiles env fs zipName r
      end
  end.

(** [ZipFiles]: the archive file exists as soon as [os.Create] succeeds,
    also when a later step fails. *)
Definition ZipFiles (env : Env) (fs : FS) (zipName : string)
    (fileList : list string) : M error :=
  if negb (e_create env zipName)
  then emit (EvZipFiles zipName fileList false) ;; ret (Some "create failed")
  else
    modify (fun s => with_local ({[zipName]} ∪ st_local s) s) ;;
    let err := addFiles env fs zipName fileList in
    emit (EvZipFiles zipName fileList (is_nil err)) ;;
    ret err.

(** [UploadToS3]: opens the local file, then one [PutObject]. *)
Definition UploadToS3 (env : Env) (key zipPath : string) : M error :=
  let! s := get in
  if negb (bool_decide (zipPath ∈ st_local s))
  then emit (EvUploadToS3 key zipPath false) ;;
       ret (Some "open: no such file or directory")
  else
    let n := S (default O (st_puts s !! key)) in
    modify (with_puts (<[key := n]> (st_puts s))) ;;
    let ok := e_put env key n in
    emit (EvUploadToS3 key zipPath ok) ;;
    ret (if ok then None else Some "PutObject failed").

(** [S3Key]. *)
Definition S3Key (cfg : Config) (year zipName : string) : string :=
  let format := if String.eqb (S3KeyFormat cfg) "" then "{year}/{zip}"
                else S3KeyFormat cfg in
  GoStr.ReplaceAll (GoStr.ReplaceAll format "{year}" year) "{zip}" zipName.

(** [FileSHA256] and [S3SHA256]. *)
Definition FileSHA256 (env : Env) (path : string) : M (option string) :=
  emit (EvFileSHA256 path) ;;
  let! s := get in
  ret (if bool_decide (path ∈ st_local s) then e_local_sum env path else None).

Definition S3SHA256 (env : Env) (key : string) : M (option string) :=
  emit (EvS3SHA256 key) ;; ret (e_remote_sum env key).

(** The retry loop: [for attempt := 1; attempt <= 3; attempt++]. *)
Fixpoint upload_loop (env : Env) (s3Key zipName : string) (fuel : nat)
    (attempt : Z) (uploadErr : error) : M error :=
  match fuel with
  | O => ret uploadErr
  | S fuel' =>
      if attempt <=? 3 then
        let! uploadErr := UploadToS3 env s3Key zipName in
        if is_nil uploadErr then ret uploadErr
        else
          emit (EvWarnAttempt attempt zipName) ;;
          Sleep attempt ;;
          upload_loop env s3Key zipName fuel' (attempt + 1) uploadErr
      else ret uploadErr
  end.

(** The progress loop: one step of the bar for each file of the group. *)
Fixpoint progress_loop (fileList : list string) : M unit :=
  match fileList with
  | [] => ret tt
  | _ :: r =>
      Lock ProgressMu ;;
      modify (fun s => with_fileProgress (int_incr (fileProgress s)) s) ;;
      emit EvUpdateBar ;;
      Unlock ProgressMu ;;
      progress_loop r
  end.

(** The checksum step after a successful upload. *)
Definition verify (cfg : Config) (env : Env) (s3Key zipName : string)
    : M unit :=
  let storageClass := GoStr.ToUpper (StorageClass cfg) in
  if String.eqb storageClass "GLACIER" || String.eqb storageClass "DEEP_ARCHIVE"
  then emit (EvSkipVerify zipName)
  else
    let! localSum := FileSHA256 env zipName in
    match localSum with
    | None => emit (EvErrorLocalSum zipName)
    | Some l =>
        let! remoteSum := S3SHA256 env s3Key in
        match remoteSum with
        | None => emit (EvErrorRemoteSum zipName)
        | Some r =>
            if negb (String.eqb l r) then emit (EvErrorMismatch zipName)
            else emit (EvChecksumOk zipName)
        end
    end.

(** Marking the month as completed and saving the ledger. *)
Definition mark_completed (env : Env) (statePath ym zipName : string)
    : M unit :=
  emit (EvLedgerStore ym zipName) ;;
  modify (fun s => with_uploadState (<[ym := zipName]> (uploadState s)) s) ;;
  let! s := get in
  let '(disk, err) :=
    ledger.SaveUploadState (e_save env (uploadState s)) (st_ledger s) statePath
      {| ledger.CompletedMonths := uploadState s |} in
  modify (with_ledger disk) ;;
  emit (EvSaveUploadState (is_nil err)).

(** What the goroutine does once the upload has succeeded: the checksum
    step, the ledger, the progress bar, and [os.Remove] of the archive. *)
Definition complete_group (cfg : Config) (env : Env)
    (statePath ym s3Key zipName : string) : M unit :=
  verify cfg env s3Key zipName ;;
  mark_completed env statePath ym zipName ;;
  Lock ProgressMu ;;
  emit EvUpdateBar ;;
  Unlock ProgressMu ;;
  emit (EvRemove zipName) ;;
  modify (fun s => with_local (st_local s ∖ {[zipName]}) s).

(** The body of the goroutine started for one group. *)
Definition worker_body (cfg : Config) (env : Env) (fs : FS)
    (statePath ym : string) (fileList : list string) : M unit :=
  let! now := Now in
  let timestamp := GoTime.Format_compact now in
  let zipName := ym +:+ "_" +:+ timestamp +:+ ".zip" in
  let! err := ZipFiles env fs zipName fileList in
  if negb (is_nil err) then
    emit (EvErrorZip zipName) ;;
    Lock Mu ;;
    modify (fun s => with_failedZips (int_incr (failedZips s)) s) ;;
    Unlock Mu
  else
    let year := GoStr.before_sep "-" ym in
    let s3Key := S3Key cfg year zipName in
    progress_loop fileList ;;
    let! uploadErr := upload_loop env s3Key zipName 3 1 None in
    if negb (is_nil uploadErr) then
      emit (EvErrorUpload zipName) ;;
      Lock Mu ;;
      modify (fun s => with_failedUploads (int_incr (failedUploads s)) s) ;;
      Unlock Mu
    else complete_group cfg env statePath ym s3Key zipName.

(** The goroutine: a slot of the semaphore around the body. *)
Definition worker (cfg : Config) (env : Env) (fs : FS)
    (statePath ym : string) (fileList : list string) : M unit :=
  emit EvSemAcquire ;;
  worker_body cfg env fs statePath ym fileList ;;
  emit EvSemRelease.

(** The loop over the groups.  A month found in the ledger is skipped
    before a goroutine is started.  The goroutines are run one after the
    other, in the order in which the loop meets the groups. *)
Fixpoint group_loop (cfg : Config) (env : Env) (fs : FS) (statePath : string)
    (groups : list (string * list string)) : M unit :=
  match groups with
  | [] => ret tt
  | (ym, fileList) :: r =>
      let! s := get in
      match uploadState s !! ym with
      | Some _ => group_loop cfg env fs statePath r
      | None =>
          worker cfg env fs statePath ym fileList ;;
          group_loop cfg env fs statePath r
      end
  end.

(** What the progress loop logs for a group. *)
Fixpoint progress_events (fileList : list string) : list Event :=
  match fileList with
  | [] => []
  | _ :: r => EvLock ProgressMu :: EvUpdateBar :: EvUnlock ProgressMu
              :: progress_events r
  end.

(** What the checksum step logs, given the two checksums. *)
Definition verify_events (cfg : Config) (s3Key zipName : string)
    (localSum remoteSum : option string) : list Event :=
  let storageClass := GoStr.ToUpper (StorageClass cfg) in
  if String.eqb storageClass "GLACIER" || String.eqb storageClass "DEEP_ARCHIVE"
  then [EvSkipVerify zipName]
  else match localSum with
       | None => [EvFileSHA256 zipName; EvErrorLocalSum zipName]
       | Some l =>
           match remoteSum with
           | None => [EvFileSHA256 zipName; EvS3SHA256 s3Key;
                      EvErrorRemoteSum zipName]
           | Some r =>
               [EvFileSHA256 zipName; EvS3SHA256 s3Key;
                if String.eqb l r then EvChecksumOk zipName
                else EvErrorMismatch zipName]
           end
       end.

(** The name of the archive of a group built at time [now], and its key. *)
Definition zip_name (ym : string) (now : GoTime.Time) : string :=
  ym +:+ "_" +:+ GoTime.Format_compact now +:+ ".zip".
Definition key_for (cfg : Config) (ym zipName : string) : string :=
  S3Key cfg (GoStr.before_sep "-" ym) zipName.

(** The state in which the retry loop leaves [s] after [n] calls of
    [PutObject] on [key] in all, [slept] seconds of sleep and the events
    [events]. *)
Definition loop_state (s : St) (key : string) (n : nat) (slept : Z)
    (events : list Event) : St :=
  with_trace (st_trace s ++ events)
    (with_clock (st_clock s + slept * GoTime.Second)
       (with_puts (<[key := n]> (st_puts s)) s)).

(** Does a log show a sleep after its last upload call? *)
Definition is_put (e : Event) : bool :=
  match e with EvUploadToS3 _ _ _ => true | _ => false end.
Definition is_sleep (e : Event) : bool :=
  match e with EvSleep _ => true | _ => false end.
Fixpoint until_put (rlog : list Event) : list Event :=
  match rlog with
  | [] => []
  | e :: r => if is_put e then [] else e :: until_put r
  end.
Definition sleeps_after_last_put (log : list Event) : bool :=
  existsb is_sleep (until_put (rev log)).

(** The state of the goroutine of a group when its retry loop starts. *)
Definition before_upload (s : St) (zipName : string) (fileList : list string)
    : St :=
  with_trace (st_trace s ++ EvZipFiles zipName fileList true
                            :: progress_events fileList)
    (with_fileProgress (Nat.iter (length fileList) int_incr (fileProgress s))
       (with_local ({[zipName]} ∪ st_local s) s)).

(** The events of the scan, and the events that build or upload the
    archive of a group. *)
Definition is_scan_event (e : Event) : bool :=
  match e with EvGetPhotoMeta _ | EvWarnDuplicate _ => true | _ => false end.
Definition is_archive_event (e : Event) : bool :=
  match e with
  | EvZipFiles _ _ _ => true
  | EvUploadToS3 key zipPath _ =>
      negb (String.eqb key "photo_metadata.json"
            && String.eqb zipPath "photo_metadata.json")
  | _ => false
  end.

(** The files and the clock around one run of [main]. *)
Record World := {
  w_disk : Disk;                            (* the photo library *)
  w_stamp : string -> StampFile;            (* last-upload files *)
  w_ledger : string -> ledger.LedgerFile;   (* ledger files *)
  w_local : gset string;                    (* files of the working directory *)
  w_clock : GoTime.Time
}.

(** What a run leaves behind and reports. *)
Record Outcome := {
  o_world : World;
  o_trace : list Event;
  o_failedZips : Z;
  o_failedUploads : Z
}.

Definition statePath : string := "upload_state.json".
Definition metaFile : string := "photo_metadata.json".

(** Writing [photo_metadata.json] and uploading it. *)
Definition upload_metadata (env : Env) : M unit :=
  if negb (e_create env metaFile) then ret tt
  else
    modify (fun s => with_local ({[metaFile]} ∪ st_local s) s) ;;
    let! _ := UploadToS3 env metaFile metaFile in
    ret tt.

(** The state in which the goroutines start. *)
Definition start (w : World) (log : list Event) : St :=
  {| st_ledger := w_ledger w; st_local := w_local w; st_clock := w_clock w;
     st_puts := ∅; uploadState := ∅;
     failedZips := 0; failedUploads := 0; fileProgress := 0;
     st_trace := log |}.

(** Loading the ledger: a nil state is replaced by a fresh one. *)
Definition load_state : M unit :=
  modify (fun s =>
    match fst (ledger.LoadUploadState (st_ledger s) statePath) with
    | Some u => with_uploadState (ledger.CompletedMonths u) s
    | None => with_uploadState ∅ s
    end).

(** [main] from the scan to the end, the groups taken in the order
    [order] gives to the map of groups (Go leaves the order open). *)
Definition main_with (order : gmap string (list string) -> list (string * list string))
    (cfg : Config) (env : Env) (w : World) : Outcome :=
  let lastUpload := GetLastUploadTime (w_stamp w) (LastUploadFile cfg) in
  let sc := scan (w_disk w) (PhotosLibrary cfg) lastUpload
                 (AllowedExtensions cfg) in
  let newPhotos := files sc in
  if (length newPhotos =? 0)%nat then
    {| o_world := w; o_trace := scan_log sc;
       o_failedZips := 0; o_failedUploads := 0 |}
  else
    let photosByYearMonth :=
      GroupPhotosByYearMonth (d_files (w_disk w)) newPhotos in
    let run :=
      upload_metadata env ;;
      load_state ;;
      group_loop cfg env (d_files (w_disk w)) statePath
                 (order photosByYearMonth) in
    let s := snd (run (start w (scan_log sc))) in
    let stamp := UpdateLastUploadTime (e_write_stamp env) (st_clock s)
                   (w_stamp w) (LastUploadFile cfg) in
    {| o_world := {| w_disk := w_disk w; w_stamp := stamp;
                     w_ledger := st_ledger s; w_local := st_local s;
                     w_clock := st_clock s |};
       o_trace := st_trace s ++ [EvUpdateLastUploadTime (st_clock s)];
       o_failedZips := failedZips s;
       o_failedUploads := failedUploads s |}.

Definition main : Config -> Env -> World -> Outcome := main_with map_to_list.

End backup.

(* ===================================================================== *)
(** ** Vocabulary of the scan                                            *)
(* ===================================================================== *)

Module scanspec.

Import photosbackup.

Definition ext_of (v : Visit) : string := GoStr.ToLower (GoStr.Ext (v_path v)).

(** A non-directory entry handed to the walk function without error. *)
Definition is_entry (v : Visit) : bool := negb (v_err v) && negb (v_isDir v).

(** Its extension is in the allow-set, or not. *)
Definition is_allowed (allowed : gmap string bool) (v : Visit) : bool :=
  is_entry v && get_bool allowed (ext_of v).
Definition is_excluded (allowed : gmap string bool) (v : Visit) : bool :=
  is_entry v && negb (get_bool allowed (ext_of v)).

(** The guard [err == nil && meta.Taken.After(since)]. *)
Definition passes (fs : FS) (since : GoTime.Time) (path : string) : bool :=
  let '(meta, err) := getPhotoMeta fs path in
  is_nil err && GoTime.After (Taken meta) since.

(** An allowed entry that passes the guard: it reaches the dedup step. *)
Definition is_eligible (fs : FS) (since : GoTime.Time)
    (allowed : gmap string bool) (v : Visit) : bool :=
  is_allowed allowed v && passes fs since (v_path v).

(** The dedup key of a path on this disk. *)
Definition key_of (fs : FS) (path : string) : string :=
  dedup_key (Taken (fst (getPhotoMeta fs path))) path.

(** Keeping the first occurrence of every key, in order. *)
Fixpoint first_by_key (key : string -> string) (seenKeys : gset string)
    (l : list string) : list string :=
  match l with
  | [] => []
  | p :: r =>
      if bool_decide (key p ∈ seenKeys) then first_by_key key seenKeys r
      else p :: first_by_key key ({[key p]} ∪ seenKeys) r
  end.

(** The entries dropped by [first_by_key], in order. *)
Fixpoint dropped_by_key (key : string -> string) (seenKeys : gset string)
    (l : list string) : list string :=
  match l with
  | [] => []
  | p :: r =>
      if bool_decide (key p ∈ seenKeys) then p :: dropped_by_key key seenKeys r
      else dropped_by_key key ({[key p]} ∪ seenKeys) r
  end.

(** The paths with key [k] in a list. *)
Definition with_key (key : string -> string) (k : string) (l : list string)
    : list string :=
  List.filter (fun r => String.eqb (key r) k) l.

(** The eligible paths of a walk, in scan order. *)
Definition eligible_paths (fs : FS) (since : GoTime.Time)
    (allowed : gmap string bool) (vs : list Visit) : list string :=
  v_path <$> List.filter (is_eligible fs since allowed) vs.

(** The paths for which a log reports a duplicate, and those for which
    it reports a call of [getPhotoMeta]. *)
Definition warned (log : list Event) : list string :=
  omap (fun e => match e with EvWarnDuplicate p => Some p | _ => None end) log.
Definition resolved (log : list Event) : list string :=
  omap (fun e => match e with EvGetPhotoMeta p => Some p | _ => None end) log.

(** [seen] holds exactly the keys of the set [S]. *)
Definition seen_is (st : ScanState) (S : gset string) : Prop :=
  forall k, get_bool (seen st) k = true <-> k ∈ S.

(** No counter of the map is negative. *)
Definition nonneg (m : gmap string Z) : Prop :=
  forall k x, m !! k = Some x -> 0 <= x.

(** The excluded entries of a walk with a given extension. *)
Definition excluded_with (allowed : gmap string bool) (ext : string)
    (vs : list Visit) : list Visit :=
  List.filter (fun v => is_excluded allowed v && String.eqb (ext_of v) ext) vs.

(** The group key of a path on this disk. *)
Definition group_of (fs : FS) (path : string) : string :=
  group_key (Taken (fst (getPhotoMeta fs path))).

(** The members of all groups of a map, group after group. *)
Definition members (g : gmap string (list string)) : list string :=
  concat (snd <$> map_to_list g).

(** The sum of the counts of a map of counters. *)
Definition total (m : gmap string Z) : Z :=
  foldr Z.add 0 (snd <$> map_to_list m).

(** The files of a list that [getPhotoMeta] resolves without an error. *)
Definition readable (fs : FS) (l : list string) : list string :=
  List.filter (fun f => is_nil (snd (getPhotoMeta fs f))) l.

End scanspec.

(* ===================================================================== *)
(** ** Sample inputs                                                      *)
(* ===================================================================== *)

Module sample.

Import photosbackup backup.

(** A readable file without EXIF data, last modified at [t]. *)
Definition plain (t : GoTime.Time) : FileInfo :=
  {| fi_open := true; fi_exif := None; fi_stat := Some t; fi_copy := true |}.

(** A file that [os.Open] refuses, last modified at [t]. *)
Definition unreadable (t : GoTime.Time) : FileInfo :=
  {| fi_open := false; fi_exif := None; fi_stat := Some t; fi_copy := false |}.

Definition march : GoTime.Time := GoTime.Date 2024 3 15 10 0 0.
Definition april : GoTime.Time := GoTime.Date 2024 4 1 8 30 0.

Definition at_lib (t : Tree) : string -> option Tree :=
  fun r => if String.eqb r "lib" then Some t else None.

(** Two folders holding a file of the same name and time, one more
    picture, and a text file. *)
Definition disk_dup : Disk :=
  {| d_tree := at_lib (TDir "lib" false
                 [ TDir "a" false [TFile "n.txt"; TFile "x.jpg"];
                   TDir "b" false [TFile "x.jpg"; TFile "y.JPG"] ]);
     d_files := list_to_map
       [ ("lib/a/n.txt", plain march); ("lib/a/x.jpg", plain march);
         ("lib/b/x.jpg", plain (march + 5)); ("lib/b/y.JPG", plain april) ] |}.

(** One picture from March 2024. *)
Definition disk_one : Disk :=
  {| d_tree := at_lib (TDir "lib" false [TFile "a.jpg"]);
     d_files := list_to_map [ ("lib/a.jpg", plain march) ] |}.

(** One picture that cannot be opened. *)
Definition disk_locked : Disk :=
  {| d_tree := at_lib (TDir "lib" false [TFile "a.jpg"]);
     d_files := list_to_map [ ("lib/a.jpg", unreadable march) ] |}.

Definition cfg (class : string) : Config :=
  {| S3Bucket := "bucket"; PhotosLibrary := "lib"; ZipFileName := "";
     LastUploadFile := "last_upload.txt"; S3KeyFormat := "";
     LogLevel := "info"; Region := "us-east-1"; TestModeLimit := 0;
     StorageClass := class; AllowedExtensions := [".jpg"];
     MaxConcurrentUploads := 2 |}.

(** Collaborators that all succeed, except that [PutObject] succeeds
    from its [n]-th call on a key only. *)
Definition env_put_from (n : nat) : Env :=
  {| e_create := fun _ => true; e_zip_entry := fun _ _ => true;
     e_put := fun _ k => (n <=? k)%nat;
     e_local_sum := fun _ => Some "5e1f"; e_remote_sum := fun _ => Some "5e1f";
     e_save := fun _ => ledger.SaveOk; e_write_stamp := true |}.

(** A first run, on the first of January 2025. *)
Definition world (d : Disk) : World :=
  {| w_disk := d; w_stamp := fun _ => NoStamp;
     w_ledger := fun _ => ledger.Missing; w_local := ∅;
     w_clock := GoTime.Date 2025 1 1 2 0 0 |}.

(** A later run whose ledger already has the month of [disk_one]. *)
Definition world_done : World :=
  {| w_disk := disk_one; w_stamp := fun _ => NoStamp;
     w_ledger := fun _ => ledger.Holds
                   {[ "2024-03" := "2024-03_20240401T000000.zip" ]} false;
     w_local := ∅;
     w_clock := GoTime.Date 2025 1 1 2 0 0 |}.

(** The same world a week later. *)
Definition a_week_later (w : World) : World :=
  {| w_disk := w_disk w; w_stamp := w_stamp w; w_ledger := w_ledger w;
     w_local := w_local w;
     w_clock := w_clock w + 7 * 86400 * GoTime.Second |}.

(** The log of the goroutine of one group of [disk_dup], run alone. *)
Definition goroutine (ym : string) (fileList : list string) : list Event :=
  st_trace (snd (worker (cfg "STANDARD") (env_put_from 1) (d_files disk_dup)
                   statePath ym fileList (start (world disk_dup) []))).

End sample.

(* ===================================================================== *)
(** ** Goroutines side by side                                           *)
(* ===================================================================== *)

(** The goroutines of [main] as lists of the events they still have to
    perform, interleaved by a scheduler.  [sync.Mutex] and the buffered
    channel used as a semaphore decide which goroutine may take its next
    step; every other event is always enabled. *)
Module sched.

Record Conc := {
  c_threads : list (list Event);        (* what each goroutine has left *)
  c_mu : option nat;                    (* who holds [mu] *)
  c_progressMu : option nat;            (* who holds [progressMu] *)
  c_slots : Z;                          (* free slots of [sem] *)
  c_log : list (nat * Event)            (* what happened, in order *)
}.

Definition owner (c : Conc) (m : Mutex) : option nat :=
  match m with Mu => c_mu c | ProgressMu => c_progressMu c end.

Definition set_owner (c : Conc) (m : Mutex) (o : option nat)
    (threads : list (list Event)) (log : list (nat * Event)) : Conc :=
  match m with
  | Mu => {| c_threads := threads; c_mu := o;
             c_progressMu := c_progressMu c; c_slots := c_slots c;
             c_log := log |}
  | ProgressMu => {| c_threads := threads; c_mu := c_mu c;
                     c_progressMu := o; c_slots := c_slots c;
                     c_log := log |}
  end.

(** Goroutine [i] takes its next step, if it has one and may take it. *)
Definition step (i : nat) (c : Conc) : option Conc :=
  match c_threads c !! i with
  | Some (e :: rest) =>
      let threads := <[i := rest]> (c_threads c) in
      let log := c_log c ++ [(i, e)] in
      match e with
      | EvLock m =>
          match owner c m with
          | None => Some (set_owner c m (Some i) threads log)
          | Some _ => None
          end
      | EvUnlock m =>
          match owner c m with
          | Some j => if Nat.eqb i j then Some (set_owner c m None threads log)
                      else None
          | None => None
          end
      | EvSemAcquire =>
          if 0 <? c_slots c
          then Some {| c_threads := threads; c_mu := c_mu c;
                       c_progressMu := c_progressMu c;
                       c_slots := c_slots c - 1; c_log := log |}
          else None
      | EvSemRelease =>
          Some {| c_threads := threads; c_mu := c_mu c;
                  c_progressMu := c_progressMu c;
                  c_slots := c_slots c + 1; c_log := log |}
      | _ =>
          Some {| c_threads := threads; c_mu := c_mu c;
                  c_progressMu := c_progressMu c;
                  c_slots := c_slots c; c_log := log |}
      end
  | _ => None
  end.

Fixpoint run (schedule : list nat) (c : Conc) : option Conc :=
  match schedule with
  | [] => Some c
  | i :: r => match step i c with
              | Some c' => run r c'
              | None => None
              end
  end.

Definition init (slots : Z) (threads : list (list Event)) : Conc :=
  {| c_threads := threads; c_mu := None; c_progressMu := None;
     c_slots := slots; c_log := [] |}.

Definition is_ledger_event (e : Event) : bool :=
  match e with
  | EvLedgerStore _ _ | EvSaveUploadState _ => true
  | _ => false
  end.

(** The ledger events of a log, with the goroutine that performed each. *)
Definition ledger_events (log : list (nat * Event)) : list (nat * Event) :=
  List.filter (fun ie => is_ledger_event (snd ie)) log.

(** The mutexes a goroutine holds after the events [log], starting with
    [held]. *)
Fixpoint held_after (held : list Mutex) (log : list Event) : list Mutex :=
  match log with
  | [] => held
  | EvLock m :: r => held_after (m :: held) r
  | EvUnlock m :: r =>
      held_after (List.filter (fun m' => match m, m' with
                                         | Mu, Mu | ProgressMu, ProgressMu => false
                                         | _, _ => true
                                         end) held) r
  | _ :: r => held_after held r
  end.

(** Is every ledger event of [log] performed with a mutex held? *)
Fixpoint ledger_locked (held : list Mutex) (log : list Event) : bool :=
  match log with
  | [] => true
  | e :: r =>
      (if is_ledger_event e
       then match held with [] => false | _ :: _ => true end
       else true)
      && ledger_locked (held_after held [e]) r
  end.

End sched.

(* ===================================================================== *)
(** ** Vocabulary of the logs                                            *)
(* ===================================================================== *)

Module tracespec.

(** The events that take or give back a slot of the semaphore. *)
Definition is_sem (e : Event) : bool :=
  match e with EvSemAcquire | EvSemRelease => true | _ => false end.

(** What was logged between two states of a run. *)
Definition new_events (before after : backup.St) : list Event :=
  drop (length (backup.st_trace before)) (backup.st_trace after).

(** A stretch of log that takes no slot of the semaphore and, started
    with no mutex held, ends with no mutex held. *)
Definition quiet (ev : list Event) : Prop :=
  sched.held_after [] ev = []
  /\ Forall (fun e => is_sem e = false) ev.

End tracespec.

(* ===================================================================== *)
(** ** Vocabulary of keys and dates                                      *)
(* ===================================================================== *)

Module keyspec.

(** A string without an opening brace. *)
Fixpoint no_brace (s : string) : bool :=
  match s with
  | EmptyString => true
  | String c r => negb (Ascii.eqb c "{"%char) && no_brace r
  end.

(** A string without a hyphen. *)
Fixpoint no_hyphen (s : string) : bool :=
  match s with
  | EmptyString => true
  | String c r => negb (Ascii.eqb c "-"%char) && no_hyphen r
  end.

(** [f] holds at the [n] integers from [z] on. *)
Fixpoint holds_from (f : Z -> bool) (n : nat) (z : Z) : bool :=
  match n with
  | O => true
  | S k => f z && holds_from f k (z + 1)
  end.

(** The month of a day of the 400-year cycle, as [GoTime.civil] has it. *)
Definition month_of_doe (doe : Z) : Z :=
  let yoe := (doe - doe / 1460 + doe / 36524 - doe / 146096) / 365 in
  let doy := doe - (365 * yoe + yoe / 4 - yoe / 100) in
  let mp := (5 * doy + 2) / 153 in
  if mp <? 10 then mp + 3 else mp - 9.

(** The number that a non-empty string of decimal digits writes. *)
Fixpoint decimal_from (acc : Z) (s : string) : option Z :=
  match s with
  | EmptyString => Some acc
  | String c r =>
      let n := Z.of_nat (nat_of_ascii c) in
      if (48 <=? n) && (n <=? 57) then decimal_from (10 * acc + (n - 48)) r
      else None
  end.
Definition decimal (s : string) : option Z :=
  match s with EmptyString => None | _ => decimal_from 0 s end.

End keyspec.

(* ===================================================================== *)
(** * Properties                                                         *)
(* ===================================================================== *)

Example ext_examples :
  GoStr.Ext "lib/2024/IMG_1.JPG" = ".JPG" /\ GoStr.Ext "a.b/c" = "" /\
  GoStr.Ext "x/.hidden" = ".hidden" /\ GoStr.Ext "a.tar.gz" = ".gz".
Proof. repeat split; reflexivity. Qed.

Example base_examples :
  GoStr.Base "lib/2024/IMG_1.JPG" = "IMG_1.JPG" /\ GoStr.Base "a/b/" = "b" /\
  GoStr.Base "" = "." /\ GoStr.Base "//" = "/" /\ GoStr.Base "x" = "x".
Proof. repeat split; reflexivity. Qed.

Example replace_examples :
  GoStr.ReplaceAll "{year}/{zip}" "{year}" "2024" = "2024/{zip}" /\
  GoStr.ReplaceAll "aaa" "aa" "b" = "ba".
Proof. repeat split; reflexivity. Qed.

Example time_examples :
  GoTime.Format_compact (GoTime.Date 2024 3 15 10 20 30) = "20240315T102030" /\
  GoTime.Format_compact (GoTime.Date 1970 1 1 0 0 0) = "19700101T000000" /\
  GoTime.Format_compact (GoTime.Date 2000 2 29 23 59 59) = "20000229T235959" /\
  GoTime.Format_compact GoTime.zero = "00010101T000000" /\
  GoTime.absDays (GoTime.Date 1970 1 1 0 0 0) = 719162.
Proof. repeat split; vm_compute; reflexivity. Qed.

Example fmt_examples :
  GoStr.fmt_0d 4 2024 = "2024" /\ GoStr.fmt_0d 2 3 = "03" /\
  GoStr.fmt_0d 4 (-5) = "-005" /\ GoStr.fmt_0d 4 12345 = "12345" /\
  GoStr.appendInt (-5) 4 = "-0005".
Proof. repeat split; vm_compute; reflexivity. Qed.

(* --------------------------------------------------------------------- *)
(** ** The ledger                                                        *)
(* --------------------------------------------------------------------- *)

Section LedgerFacts.

Import ledger.

Variable disk : string -> LedgerFile.
Variable path : string.

Lemma load_missing :
  disk path = Missing -> LoadUploadState disk path = (Some {| CompletedMonths := ∅ |}, None).
Proof. intros H. unfold LoadUploadState. now rewrite H. Qed.

Lemma load_error_iff :
  snd (LoadUploadState disk path) <> None <-> disk path = OpenFails.
Proof.
  unfold LoadUploadState. destruct (disk path); simpl; split; intros H;
    try congruence; try discriminate.
Qed.

End LedgerFacts.

(** C10. [LoadUploadState] never reports corruption: for a file that opens,
    whatever the decoder makes of its bytes and whether or not it returns
    an error, the result is a non-nil state (holding what was decoded) and
    a nil error; so a file that decodes to nothing with an error is loaded
    exactly like a missing one.  An error comes back only when [os.Open]
    fails for another reason than non-existence, and then the state is
    nil. *)
Theorem C10_load_never_reports_corruption :
  forall (disk : string -> ledger.LedgerFile) (path : string)
         (months : gmap string string) (decodeErr : bool),
    disk path = ledger.Holds months decodeErr ->
    ledger.LoadUploadState disk path
      = (Some {| ledger.CompletedMonths := months |}, None)
    /\ (months = ∅ ->
        ledger.LoadUploadState disk path
          = ledger.LoadUploadState (fun _ => ledger.Missing) path)
    /\ (forall disk' path',
          snd (ledger.LoadUploadState disk' path') <> None ->
          disk' path' = ledger.OpenFails
          /\ fst (ledger.LoadUploadState disk' path') = None).
Proof.
  intros disk path months decodeErr H. split; [|split].
  - unfold ledger.LoadUploadState. now rewrite H.
  - intros ->. unfold ledger.LoadUploadState. now rewrite H.
  - intros disk' path' Herr.
    apply load_error_iff in Herr. split; [exact Herr|].
    unfold ledger.LoadUploadState. now rewrite Herr.
Qed.

Lemma C10_witness :
  ledger.LoadUploadState (fun _ => ledger.Holds ∅ true) "upload_state.json"
    = (Some {| ledger.CompletedMonths := ∅ |}, None).
Proof.
  exact (proj1 (C10_load_never_reports_corruption
                  (fun _ => ledger.Holds ∅ true) "upload_state.json" ∅ true
                  eq_refl)).
Defined.

(* --------------------------------------------------------------------- *)
(** ** The walk function, case by case                                   *)
(* --------------------------------------------------------------------- *)

Section VisitFacts.

Import photosbackup scanspec.

Variable fs : FS.
Variable since : GoTime.Time.
Variable allowed : gmap string bool.

(** The three ways in which the walk function treats an entry. *)
Lemma visit_cases (st : ScanState) (v : Visit) :
  visit fs since allowed st v =
    if is_allowed allowed v then
      let path := v_path v in
      let log := scan_log st ++ [EvGetPhotoMeta path] in
      if passes fs since path then
        if negb (get_bool (seen st) (key_of fs path)) then
          {| files := files st ++ [path];
             seen := <[key_of fs path := true]> (seen st);
             excluded := excluded st; scan_log := log |}
        else
          {| files := files st; seen := seen st; excluded := excluded st;
             scan_log := log ++ [EvWarnDuplicate path] |}
      else
        {| files := files st; seen := seen st; excluded := excluded st;
           scan_log := log |}
    else if is_excluded allowed v then
      {| files := files st; seen := seen st;
         excluded := <[ext_of v := int_incr (get_int (excluded st) (ext_of v))]>
                       (excluded st);
         scan_log := scan_log st |}
    else st.
Proof.
  unfold visit, is_allowed, is_excluded, is_entry, passes, key_of, ext_of.
  destruct (v_err v); [reflexivity|].
  destruct (v_isDir v); cbn [negb andb]; [reflexivity|].
  destruct (get_bool allowed _); cbn [negb andb]; [|reflexivity].
  destruct (getPhotoMeta fs (v_path v)) as [meta err]; cbn [fst snd].
  destruct (is_nil err && GoTime.After (Taken meta) since); reflexivity.
Qed.

Lemma passes_iff (path : string) (meta : PhotoMeta) :
  getPhotoMeta fs path = (meta, None) ->
  passes fs since path = true <-> since < Taken meta.
Proof.
  intros H. unfold passes. rewrite H. simpl. unfold GoTime.After.
  apply Z.ltb_lt.
Qed.

Lemma passes_resolves (path : string) :
  passes fs since path = true -> snd (getPhotoMeta fs path) = None.
Proof.
  unfold passes. destruct (getPhotoMeta fs path) as [meta [e|]]; simpl;
    [discriminate|reflexivity].
Qed.

End VisitFacts.

(* --------------------------------------------------------------------- *)
(** ** C7: the watermark                                                 *)
(* --------------------------------------------------------------------- *)

(** C7 (as the code has it). For every allowed entry that [getPhotoMeta]
    resolves without error, the entry passes the guard iff its resolved
    timestamp is strictly after the watermark, and the walk function
    appends it to the result exactly when it passes and its key is new.
    So an entry whose timestamp equals the watermark is left out, an entry
    one second later is taken, and under the zero watermark every such
    entry with a timestamp after the zero time is taken.  (An entry that
    cannot be opened has no resolved timestamp and is never taken.) *)
Theorem C7_watermark_strict_after :
  forall (fs : FS) (since : GoTime.Time) (allowed : gmap string bool)
         (st : photosbackup.ScanState) (v : Visit) (meta : photosbackup.PhotoMeta),
    scanspec.is_allowed allowed v = true ->
    photosbackup.getPhotoMeta fs (v_path v) = (meta, None) ->
    let t := photosbackup.Taken meta in
    let fresh := negb (photosbackup.get_bool (photosbackup.seen st)
                         (photosbackup.dedup_key t (v_path v))) in
    (scanspec.is_eligible fs since allowed v = true <-> since < t)
    /\ photosbackup.files (photosbackup.visit fs since allowed st v)
       = (if (since <? t) && fresh
          then photosbackup.files st ++ [v_path v]
          else photosbackup.files st)
    /\ (t = since ->
        photosbackup.files (photosbackup.visit fs since allowed st v)
        = photosbackup.files st)
    /\ (t = since + GoTime.Second -> fresh = true ->
        photosbackup.files (photosbackup.visit fs since allowed st v)
        = photosbackup.files st ++ [v_path v])
    /\ (since = GoTime.zero -> GoTime.zero < t -> fresh = true ->
        photosbackup.files (photosbackup.visit fs since allowed st v)
        = photosbackup.files st ++ [v_path v]).
Proof.
  intros fs since allowed st v meta Hal Hmeta t fresh.
  assert (Hfiles :
    photosbackup.files (photosbackup.visit fs since allowed st v)
    = if (since <? t) && fresh then photosbackup.files st ++ [v_path v]
      else photosbackup.files st).
  { rewrite visit_cases, Hal. cbv zeta.
    unfold scanspec.passes, scanspec.key_of. rewrite Hmeta. simpl.
    unfold GoTime.After. fold t. fold fresh.
    destruct (since <? t); simpl; [|reflexivity].
    destruct fresh; reflexivity. }
  split; [|split; [exact Hfiles|split; [|split]]].
  - unfold scanspec.is_eligible. rewrite Hal. simpl.
    apply passes_iff. exact Hmeta.
  - intros Heq. rewrite Hfiles.
    replace (since <? t) with false by (symmetry; apply Z.ltb_ge; lia).
    reflexivity.
  - intros Heq Hfresh. rewrite Hfiles, Hfresh.
    replace (since <? t) with true; [reflexivity|].
    symmetry; apply Z.ltb_lt. unfold GoTime.Second in Heq. lia.
  - intros Hz Hpos Hfresh. rewrite Hfiles, Hfresh.
    replace (since <? t) with true; [reflexivity|].
    symmetry; apply Z.ltb_lt. lia.
Qed.

Lemma C7_witness :
  photosbackup.files
    (photosbackup.visit (d_files sample.disk_one) GoTime.zero
       (photosbackup.allowed_of [".jpg"]) photosbackup.scan_init
       {| v_path := "lib/a.jpg"; v_isDir := false; v_err := false |})
  = ["lib/a.jpg"].
Proof.
  refine (proj2 (proj2 (proj2 (proj2
    (C7_watermark_strict_after (d_files sample.disk_one) GoTime.zero
       (photosbackup.allowed_of [".jpg"]) photosbackup.scan_init
       {| v_path := "lib/a.jpg"; v_isDir := false; v_err := false |}
       {| photosbackup.Path := "lib/a.jpg"; photosbackup.Taken := sample.march;
          photosbackup.Camera := "" |} _ _)))) _ _ _).
  - vm_compute; reflexivity.
  - vm_compute; reflexivity.
  - reflexivity.
  - vm_compute; reflexivity.
  - vm_compute; reflexivity.
Defined.

(** C7 as stated fails: under the zero watermark an allowed entry is not
    always taken.  The only file of [sample.disk_locked] has an allowed
    extension, but [os.Open] refuses it and the scan returns nothing. *)
Lemma C7_counterexample :
  ~ (forall (d : Disk) (root : string) (allowedExts : list string) (v : Visit),
       v ∈ WalkDir root (d_tree d root) ->
       scanspec.is_allowed (photosbackup.allowed_of allowedExts) v = true ->
       v_path v ∈ fst (photosbackup.FindNewPhotos d root GoTime.zero allowedExts)).
Proof.
  intros H.
  specialize (H sample.disk_locked "lib" [".jpg"]
                {| v_path := "lib/a.jpg"; v_isDir := false; v_err := false |}).
  assert (Hin : {| v_path := "lib/a.jpg"; v_isDir := false; v_err := false |}
                ∈ WalkDir "lib" (d_tree sample.disk_locked "lib")).
  { vm_compute. apply list_elem_of_further, list_elem_of_here. }
  specialize (H Hin eq_refl).
  vm_compute in H. inversion H.
Qed.

(* --------------------------------------------------------------------- *)
(** ** Counters                                                          *)
(* --------------------------------------------------------------------- *)

Section Counters.

Import photosbackup scanspec.

Lemma int_incr_small (x : Z) : 0 <= x -> x + 1 < 2 ^ 63 -> int_incr x = x + 1.
Proof.
  intros H0 H1. unfold int_incr, wrap64.
  rewrite Z.mod_small; lia.
Qed.

Lemma sum_perm (l l' : list Z) :
  l ≡ₚ l' -> foldr Z.add 0 l = foldr Z.add 0 l'.
Proof. induction 1; simpl; lia. Qed.

Lemma total_empty : total ∅ = 0.
Proof. unfold total. now rewrite map_to_list_empty. Qed.

Lemma total_fresh (m : gmap string Z) (k : string) (v : Z) :
  m !! k = None -> total (<[k := v]> m) = v + total m.
Proof.
  intros H. unfold total.
  rewrite (sum_perm _ (snd <$> (k, v) :: map_to_list m)); [reflexivity|].
  apply fmap_Permutation, map_to_list_insert, H.
Qed.

Lemma total_split (m : gmap string Z) (k : string) (x : Z) :
  m !! k = Some x -> total m = x + total (delete k m).
Proof.
  intros H. unfold total.
  rewrite (sum_perm _ (snd <$> (k, x) :: map_to_list (delete k m)));
    [reflexivity|].
  apply fmap_Permutation. symmetry. apply map_to_list_delete, H.
Qed.

Lemma total_insert (m : gmap string Z) (k : string) (v : Z) :
  total (<[k := v]> m) = total m - get_int m k + v.
Proof.
  unfold get_int. destruct (m !! k) as [x|] eqn:E; simpl.
  - rewrite <- insert_delete_eq.
    rewrite total_fresh by apply lookup_delete_eq.
    rewrite (total_split m k x E). lia.
  - rewrite total_fresh by exact E. lia.
Qed.

Lemma total_nonneg (m : gmap string Z) : nonneg m -> 0 <= total m.
Proof.
  intros H. unfold total.
  assert (Hall : forall x, x ∈ (snd <$> map_to_list m) -> 0 <= x).
  { intros x Hx. apply list_elem_of_fmap in Hx as [[k y] [-> Hin]].
    apply elem_of_map_to_list in Hin. eapply H; eauto. }
  induction (snd <$> map_to_list m) as [|a l IH]; simpl; [lia|].
  assert (0 <= a) by (apply Hall; left).
  assert (0 <= foldr Z.add 0 l) by (apply IH; intros; apply Hall; now right).
  lia.
Qed.

Lemma nonneg_delete (m : gmap string Z) (k : string) :
  nonneg m -> nonneg (delete k m).
Proof.
  intros H j x Hj. apply lookup_delete_Some in Hj as [_ Hj]. eapply H; eauto.
Qed.

Lemma get_int_le_total (m : gmap string Z) (k : string) :
  nonneg m -> 0 <= get_int m k <= total m.
Proof.
  intros H. unfold get_int. destruct (m !! k) as [x|] eqn:E; simpl.
  - rewrite (total_split m k x E).
    pose proof (total_nonneg _ (nonneg_delete m k H)).
    pose proof (H k x E). lia.
  - pose proof (total_nonneg m H). lia.
Qed.

Lemma nonneg_insert (m : gmap string Z) (k : string) (v : Z) :
  nonneg m -> 0 <= v -> nonneg (<[k := v]> m).
Proof.
  intros H Hv j x Hj. apply lookup_insert_Some in Hj as [[_ <-]|[_ Hj]];
    [exact Hv|eapply H; eauto].
Qed.

End Counters.

(* --------------------------------------------------------------------- *)
(** ** The scan as a fold                                                *)
(* --------------------------------------------------------------------- *)

Section ScanFold.

Import photosbackup scanspec.

Variable fs : FS.
Variable since : GoTime.Time.
Variable allowed : gmap string bool.

Let step := visit fs since allowed.
Let key := key_of fs.

Lemma seen_is_init : seen_is scan_init ∅.
Proof.
  intros k. unfold get_bool. simpl. rewrite lookup_empty. simpl.
  split; [discriminate|]. intros H. now apply not_elem_of_empty in H.
Qed.

Lemma seen_is_insert (st st' : ScanState) (S : gset string) (k : string) :
  seen_is st S -> seen st' = <[k := true]> (seen st) ->
  seen_is st' ({[k]} ∪ S).
Proof.
  intros H E j. unfold get_bool. rewrite E.
  destruct (decide (k = j)) as [->|Hne].
  - rewrite lookup_insert_eq. simpl. split; [set_solver|reflexivity].
  - rewrite lookup_insert_ne by exact Hne. specialize (H j).
    unfold get_bool in H. rewrite H. set_solver.
Qed.

Lemma warned_app (l1 l2 : list Event) : warned (l1 ++ l2) = warned l1 ++ warned l2.
Proof. unfold warned. apply omap_app. Qed.

Lemma resolved_app (l1 l2 : list Event) :
  resolved (l1 ++ l2) = resolved l1 ++ resolved l2.
Proof. unfold resolved. apply omap_app. Qed.

Lemma eligible_paths_cons (v : Visit) (vs : list Visit) :
  eligible_paths fs since allowed (v :: vs)
  = if is_allowed allowed v && passes fs since (v_path v)
    then v_path v :: eligible_paths fs since allowed vs
    else eligible_paths fs since allowed vs.
Proof.
  unfold eligible_paths, is_eligible. cbn [List.filter].
  destruct (is_allowed allowed v && passes fs since (v_path v)); reflexivity.
Qed.

Lemma allowed_paths_cons (v : Visit) (vs : list Visit) :
  v_path <$> List.filter (is_allowed allowed) (v :: vs)
  = if is_allowed allowed v
    then v_path v :: (v_path <$> List.filter (is_allowed allowed) vs)
    else v_path <$> List.filter (is_allowed allowed) vs.
Proof. cbn [List.filter]. destruct (is_allowed allowed v); reflexivity. Qed.

(** Files, warnings and calls of [getPhotoMeta] after a walk. *)
Lemma scan_fold (vs : list Visit) :
  forall (st : ScanState) (S : gset string),
    seen_is st S ->
    files (fold_left step vs st)
    = files st ++ first_by_key key S (eligible_paths fs since allowed vs)
    /\ warned (scan_log (fold_left step vs st))
       = warned (scan_log st)
         ++ dropped_by_key key S (eligible_paths fs since allowed vs)
    /\ resolved (scan_log (fold_left step vs st))
       = resolved (scan_log st) ++ (v_path <$> List.filter (is_allowed allowed) vs).
Proof.
  induction vs as [|v vs IH]; intros st S HS.
  - cbn [fold_left]. unfold eligible_paths.
    cbn [List.filter fmap list_fmap first_by_key dropped_by_key].
    rewrite !app_nil_r. auto.
  - cbn [fold_left]. rewrite eligible_paths_cons, allowed_paths_cons.
    unfold step at 2 4 6. rewrite visit_cases. cbv zeta.
    destruct (is_allowed allowed v) eqn:Hal; cbn [andb].
    + destruct (passes fs since (v_path v)) eqn:Hp.
      * fold key. cbn [first_by_key dropped_by_key].
        destruct (get_bool (seen st) (key (v_path v))) eqn:Hs; cbn [negb].
        -- assert (Hin : key (v_path v) ∈ S) by (apply HS; exact Hs).
           rewrite bool_decide_eq_true_2 by exact Hin.
           match goal with |- context [fold_left step vs ?s] =>
             destruct (IH s S) as (E1 & E2 & E3);
               [intros k; apply HS|rewrite E1, E2, E3] end.
           cbn [files scan_log]. rewrite ?warned_app, ?resolved_app.
           cbn [warned resolved omap list_omap].
           rewrite ?app_nil_r, <- ?app_assoc. repeat split; reflexivity.
        -- assert (Hnin : key (v_path v) ∉ S).
           { intros Hin. apply HS in Hin. congruence. }
           rewrite bool_decide_eq_false_2 by exact Hnin.
           match goal with |- context [fold_left step vs ?s] =>
             destruct (IH s ({[key (v_path v)]} ∪ S)) as (E1 & E2 & E3);
               [eapply seen_is_insert; [exact HS|reflexivity]
               |rewrite E1, E2, E3] end.
           cbn [files scan_log]. rewrite ?warned_app, ?resolved_app.
           cbn [warned resolved omap list_omap].
           rewrite ?app_nil_r, <- ?app_assoc. repeat split; reflexivity.
      * match goal with |- context [fold_left step vs ?s] =>
          destruct (IH s S) as (E1 & E2 & E3);
            [intros k; apply HS|rewrite E1, E2, E3] end.
        cbn [files scan_log]. rewrite ?warned_app, ?resolved_app.
        cbn [warned resolved omap list_omap].
        rewrite ?app_nil_r, <- ?app_assoc. repeat split; reflexivity.
    + destruct (is_excluded allowed v).
      * match goal with |- context [fold_left step vs ?s] =>
          destruct (IH s S) as (E1 & E2 & E3);
            [intros k; apply HS|rewrite E1, E2, E3] end.
        cbn [files scan_log]. repeat split; reflexivity.
      * apply IH. exact HS.
Qed.

Lemma excluded_with_cons (ext : string) (v : Visit) (vs : list Visit) :
  length (excluded_with allowed ext (v :: vs))
  = ((if is_excluded allowed v && String.eqb (ext_of v) ext then 1 else 0)
     + length (excluded_with allowed ext vs))%nat.
Proof.
  unfold excluded_with. cbn [List.filter].
  destruct (is_excluded allowed v && String.eqb (ext_of v) ext); reflexivity.
Qed.

Lemma excluded_cons (v : Visit) (vs : list Visit) :
  length (List.filter (is_excluded allowed) (v :: vs))
  = ((if is_excluded allowed v then 1 else 0)
     + length (List.filter (is_excluded allowed) vs))%nat.
Proof. cbn [List.filter]. destruct (is_excluded allowed v); reflexivity. Qed.

Lemma allowed_not_excluded (v : Visit) :
  is_allowed allowed v = true -> is_excluded allowed v = false.
Proof.
  unfold is_allowed, is_excluded.
  destruct (is_entry v); cbn [andb]; [|reflexivity].
  now intros ->.
Qed.

(** The counters of excluded extensions after a walk. *)
Lemma scan_excluded (vs : list Visit) :
  forall (st : ScanState),
    nonneg (excluded st) ->
    total (excluded st) + Z.of_nat (length (List.filter (is_excluded allowed) vs))
      < 2 ^ 63 ->
    nonneg (excluded (fold_left step vs st))
    /\ total (excluded (fold_left step vs st))
       = total (excluded st)
         + Z.of_nat (length (List.filter (is_excluded allowed) vs))
    /\ forall ext,
         get_int (excluded (fold_left step vs st)) ext
         = get_int (excluded st) ext
           + Z.of_nat (length (excluded_with allowed ext vs)).
Proof.
  induction vs as [|v vs IH]; intros st Hnn Hb.
  - cbn [fold_left]. unfold excluded_with. cbn [List.filter length].
    split; [exact Hnn|]. split; [lia|]. intros ext. lia.
  - cbn [fold_left]. rewrite excluded_cons in *.
    unfold step at 2 4 6. rewrite visit_cases. cbv zeta.
    destruct (is_allowed allowed v) eqn:Hal.
    + rewrite (allowed_not_excluded v Hal) in *.
      destruct (passes fs since (v_path v));
        [destruct (negb (get_bool (seen st) (key_of fs (v_path v))))|];
        (match goal with |- context [fold_left step vs ?s] =>
           destruct (IH s) as (N1 & T1 & G1); [exact Hnn|exact Hb|] end;
         cbn [excluded] in *; split; [exact N1|split; [lia|]];
         intros ext; rewrite G1, excluded_with_cons,
           (allowed_not_excluded v Hal); cbn [andb]; lia).
    + destruct (is_excluded allowed v) eqn:Hex.
      * pose proof (get_int_le_total (excluded st) (ext_of v) Hnn) as Hle.
        assert (Hinc : int_incr (get_int (excluded st) (ext_of v))
                       = get_int (excluded st) (ext_of v) + 1).
        { apply int_incr_small; lia. }
        match goal with |- context [fold_left step vs ?s] =>
          destruct (IH s) as (N1 & T1 & G1) end.
        { cbn [excluded]. apply nonneg_insert; [exact Hnn|]. rewrite Hinc. lia. }
        { cbn [excluded]. rewrite total_insert, Hinc. lia. }
        split; [exact N1|]. split.
        -- rewrite T1. cbn [excluded]. rewrite total_insert, Hinc. lia.
        -- intros ext. rewrite G1, excluded_with_cons, Hex. cbn [excluded andb].
           unfold get_int at 1.
           destruct (String.eqb (ext_of v) ext) eqn:Heq.
           ++ apply String.eqb_eq in Heq. subst ext.
              rewrite lookup_insert_eq. cbn [default from_option id].
              rewrite Hinc. cbv iota. lia.
           ++ apply String.eqb_neq in Heq.
              rewrite lookup_insert_ne by exact Heq. unfold get_int.
              cbv iota. lia.
      * match goal with |- context [fold_left step vs ?s] =>
          destruct (IH s) as (N1 & T1 & G1); [exact Hnn|exact Hb|] end.
        split; [exact N1|split; [lia|]].
        intros ext. rewrite G1, excluded_with_cons, Hex. cbn [andb]. lia.
Qed.

End ScanFold.

(* --------------------------------------------------------------------- *)
(** ** The walk and the dedup function                                   *)
(* --------------------------------------------------------------------- *)

Section TreeInduction.

Variable P : Tree -> Prop.
Hypothesis P_file : forall n, P (TFile n).
Hypothesis P_dir : forall n rerr es, Forall P es -> P (TDir n rerr es).

Lemma Tree_nested_ind : forall t : Tree, P t.
Proof.
  fix IH 1. intros [n|n rerr es]; [apply P_file|apply P_dir].
  induction es as [|c r IHr]; constructor; [apply IH|exact IHr].
Qed.

End TreeInduction.

(** Only directories are handed to the walk function with an error, as
    long as the root itself exists. *)
Lemma walkDir_err_dir (t : Tree) :
  forall path v, v ∈ walkDir path t -> v_err v = true -> v_isDir v = true.
Proof.
  induction t as [n|n rerr es IH] using Tree_nested_ind; intros path v Hin Herr.
  - simpl in Hin. apply list_elem_of_singleton in Hin. subst v. discriminate.
  - simpl in Hin. apply elem_of_cons in Hin as [->|Hin]; [reflexivity|].
    apply elem_of_app in Hin as [Hin|Hin].
    + destruct rerr; [|now apply elem_of_nil in Hin].
      apply list_elem_of_singleton in Hin. now subst v.
    + induction IH as [|c r Hc _ IHr]; simpl in Hin.
      * now apply elem_of_nil in Hin.
      * apply elem_of_app in Hin as [Hin|Hin]; eauto.
Qed.

Lemma walk_entries (root : string) (t : Tree) (v : Visit) :
  v ∈ WalkDir root (Some t) -> v_isDir v = false -> scanspec.is_entry v = true.
Proof.
  intros Hin Hd. unfold scanspec.is_entry. rewrite Hd.
  destruct (v_err v) eqn:He; [|reflexivity].
  pose proof (walkDir_err_dir t root v Hin He). congruence.
Qed.

Section FirstByKey.

Import scanspec.

Variable key : string -> string.

Lemma with_key_seen (l : list string) :
  forall (S : gset string) (k : string),
    k ∈ S -> with_key key k (first_by_key key S l) = [].
Proof.
  induction l as [|p r IH]; intros S k Hk; simpl; [reflexivity|].
  case_bool_decide as Hp.
  - now apply IH.
  - unfold with_key. simpl. destruct (String.eqb (key p) k) eqn:E.
    + apply String.eqb_eq in E. congruence.
    + apply IH. set_solver.
Qed.

(** Of the entries with a key that was not seen before, [first_by_key]
    keeps the first one and nothing else. *)
Lemma with_key_first (l : list string) :
  forall (S : gset string) (k : string),
    k ∉ S ->
    with_key key k (first_by_key key S l)
    = match List.find (fun r => String.eqb (key r) k) l with
      | Some q => [q]
      | None => []
      end.
Proof.
  induction l as [|p r IH]; intros S k Hk; simpl; [reflexivity|].
  case_bool_decide as Hp.
  - destruct (String.eqb (key p) k) eqn:E.
    + apply String.eqb_eq in E. congruence.
    + now apply IH.
  - unfold with_key. simpl. destruct (String.eqb (key p) k) eqn:E.
    + apply String.eqb_eq in E. f_equal.
      apply with_key_seen. set_solver.
    + apply String.eqb_neq in E. apply IH. set_solver.
Qed.

Lemma first_by_key_length (l : list string) :
  forall S, (length (first_by_key key S l) <= length l)%nat.
Proof.
  induction l as [|p r IH]; intros S; simpl; [lia|].
  case_bool_decide; simpl; [specialize (IH S)|specialize (IH ({[key p]} ∪ S))]; lia.
Qed.

Lemma find_of_elem (l : list string) (k : string) (p : string) :
  p ∈ l -> key p = k ->
  exists q, List.find (fun r => String.eqb (key r) k) l = Some q.
Proof.
  intros Hin Hk. destruct (List.find _ l) as [q|] eqn:E; [eauto|].
  apply list_elem_of_In in Hin.
  pose proof (find_none _ _ E p Hin) as Hn. simpl in Hn.
  apply String.eqb_neq in Hn. congruence.
Qed.

End FirstByKey.

Lemma filter_length_le {A} (f : A -> bool) (l : list A) :
  (length (List.filter f l) <= length l)%nat.
Proof. induction l as [|a l IH]; simpl; [lia|destruct (f a); simpl; lia]. Qed.

Lemma filter_and_length_le {A} (f g : A -> bool) (l : list A) :
  (length (List.filter (fun x => f x && g x) l) <= length (List.filter f l))%nat.
Proof.
  induction l as [|a l IH]; simpl; [lia|].
  destruct (f a), (g a); simpl; lia.
Qed.

Lemma format_compact_second (t u : GoTime.Time) :
  GoTime.absSec t = GoTime.absSec u ->
  GoTime.Format_compact t = GoTime.Format_compact u.
Proof.
  intros H.
  unfold GoTime.Format_compact, GoTime.Year, GoTime.Month, GoTime.Day,
    GoTime.Hour, GoTime.Minute, GoTime.Sec, GoTime.absDays, GoTime.secOfDay.
  now rewrite H.
Qed.

(* --------------------------------------------------------------------- *)
(** ** C8: deduplication                                                 *)
(* --------------------------------------------------------------------- *)

Lemma dedup_key_second_base (t u : GoTime.Time) (p q : string) :
  GoTime.absSec t = GoTime.absSec u -> GoStr.Base p = GoStr.Base q ->
  photosbackup.dedup_key t p = photosbackup.dedup_key u q.
Proof.
  intros Ht Hb. unfold photosbackup.dedup_key.
  now rewrite (format_compact_second t u Ht), Hb.
Qed.

(** C8. The key of an entry is its resolved timestamp formatted to the
    second, a hyphen, and its base name, so entries with the same second
    and the same base name have the same key.  The scan returns the
    eligible entries in scan order with the first occurrence of every key
    kept and every later one dropped; each dropped entry is reported by a
    warning and by nothing else.  Hence of all eligible entries with one
    key, exactly one -- the first -- is in the result, also when they lie
    in different folders. *)
Theorem C8_dedup_first_occurrence :
  forall (d : Disk) (root : string) (since : GoTime.Time)
         (allowedExts : list string),
    let fs := d_files d in
    let elig := scanspec.eligible_paths fs since
                  (photosbackup.allowed_of allowedExts)
                  (WalkDir root (d_tree d root)) in
    let sc := photosbackup.scan d root since allowedExts in
    (forall p, scanspec.key_of fs p
               = GoTime.Format_compact
                   (photosbackup.Taken (fst (photosbackup.getPhotoMeta fs p)))
                 +:+ "-" +:+ GoStr.Base p)
    /\ (forall p q,
          GoTime.absSec (photosbackup.Taken (fst (photosbackup.getPhotoMeta fs p)))
          = GoTime.absSec (photosbackup.Taken (fst (photosbackup.getPhotoMeta fs q))) ->
          GoStr.Base p = GoStr.Base q ->
          scanspec.key_of fs p = scanspec.key_of fs q)
    /\ photosbackup.files sc = scanspec.first_by_key (scanspec.key_of fs) ∅ elig
    /\ scanspec.warned (photosbackup.scan_log sc)
       = scanspec.dropped_by_key (scanspec.key_of fs) ∅ elig
    /\ (forall k,
          scanspec.with_key (scanspec.key_of fs) k (photosbackup.files sc)
          = match List.find (fun r => String.eqb (scanspec.key_of fs r) k) elig with
            | Some first => [first]
            | None => []
            end)
    /\ (forall p, p ∈ elig ->
          exists first,
            scanspec.with_key (scanspec.key_of fs) (scanspec.key_of fs p)
              (photosbackup.files sc) = [first]).
Proof.
  intros d root since allowedExts fs elig sc.
  destruct (scan_fold fs since (photosbackup.allowed_of allowedExts)
              (WalkDir root (d_tree d root)) photosbackup.scan_init ∅
              seen_is_init) as (Hf & Hw & _).
  simpl in Hf, Hw.
  assert (Hfiles : photosbackup.files sc
                   = scanspec.first_by_key (scanspec.key_of fs) ∅ elig)
    by exact Hf.
  assert (Hkey : forall k,
    scanspec.with_key (scanspec.key_of fs) k (photosbackup.files sc)
    = match List.find (fun r => String.eqb (scanspec.key_of fs r) k) elig with
      | Some first => [first]
      | None => []
      end).
  { intros k. rewrite Hfiles. apply with_key_first. apply not_elem_of_empty. }
  split; [reflexivity|]. split.
  { intros p q Ht Hb. unfold scanspec.key_of.
    now apply dedup_key_second_base. }
  split; [exact Hfiles|]. split; [exact Hw|]. split; [exact Hkey|].
  intros p Hp.
  destruct (find_of_elem (scanspec.key_of fs) elig _ p Hp eq_refl) as [q Hq].
  exists q. rewrite Hkey, Hq. reflexivity.
Qed.

(** The two folders of [sample.disk_dup]: [lib/b/x.jpg] has the second and
    the base name of [lib/a/x.jpg] and is dropped with a warning. *)
Example dedup_two_folders :
  photosbackup.FindNewPhotos sample.disk_dup "lib" GoTime.zero [".jpg"]
    = (["lib/a/x.jpg"; "lib/b/y.JPG"], {[ ".txt" := 1 ]})
  /\ scanspec.warned
       (photosbackup.scan_log
          (photosbackup.scan sample.disk_dup "lib" GoTime.zero [".jpg"]))
     = ["lib/b/x.jpg"].
Proof. split; vm_compute; reflexivity. Qed.

(* --------------------------------------------------------------------- *)
(** ** C9: exclusion accounting                                          *)
(* --------------------------------------------------------------------- *)

(** C9. Every non-directory entry of the tree is handed to the walk
    function without error, and is either allowed or excluded.  On an
    excluded entry the function adds one to the counter of the entry's
    lower-cased extension and does nothing else: [getPhotoMeta] is called
    for the allowed entries only.  With [N] excluded and [M] allowed
    entries ([N] below the range of [int]), the counters sum to [N], each
    counter is the number of excluded entries with its extension, and the
    result has at most [M] entries. *)
Theorem C9_exclusion_accounting :
  forall (d : Disk) (root : string) (since : GoTime.Time)
         (allowedExts : list string),
    let fs := d_files d in
    let allowed := photosbackup.allowed_of allowedExts in
    let vs := WalkDir root (d_tree d root) in
    let N := length (List.filter (scanspec.is_excluded allowed) vs) in
    let M := length (List.filter (scanspec.is_allowed allowed) vs) in
    let sc := photosbackup.scan d root since allowedExts in
    Z.of_nat N < 2 ^ 63 ->
    scanspec.total (photosbackup.excluded sc) = Z.of_nat N
    /\ (forall ext,
          photosbackup.get_int (photosbackup.excluded sc) ext
          = Z.of_nat (length (scanspec.excluded_with allowed ext vs)))
    /\ (length (photosbackup.files sc) <= M)%nat
    /\ scanspec.resolved (photosbackup.scan_log sc)
       = v_path <$> List.filter (scanspec.is_allowed allowed) vs
    /\ (forall st v,
          scanspec.is_excluded allowed v = true ->
          photosbackup.visit fs since allowed st v
          = {| photosbackup.files := photosbackup.files st;
               photosbackup.seen := photosbackup.seen st;
               photosbackup.excluded :=
                 <[scanspec.ext_of v :=
                     int_incr (photosbackup.get_int (photosbackup.excluded st)
                                 (scanspec.ext_of v))]>
                   (photosbackup.excluded st);
               photosbackup.scan_log := photosbackup.scan_log st |})
    /\ (forall t v,
          d_tree d root = Some t -> v ∈ vs -> v_isDir v = false ->
          scanspec.is_entry v = true
          /\ scanspec.is_excluded allowed v
             = negb (scanspec.is_allowed allowed v)).
Proof.
  intros d root since allowedExts fs allowed vs N M sc HN.
  destruct (scan_fold fs since allowed vs photosbackup.scan_init ∅
              seen_is_init) as (Hf & _ & Hr).
  destruct (scan_excluded fs since allowed vs photosbackup.scan_init)
    as (_ & Ht & Hg).
  { intros k x Hk. simpl in Hk. now rewrite lookup_empty in Hk. }
  { simpl. rewrite total_empty. fold N. lia. }
  simpl in Hf, Hr, Ht, Hg. rewrite total_empty in Ht.
  split; [exact Ht|]. split.
  { intros ext. unfold sc, photosbackup.scan. fold fs allowed vs.
    rewrite Hg. unfold photosbackup.get_int. rewrite lookup_empty.
    simpl. lia. }
  split.
  { unfold sc, photosbackup.scan. fold fs allowed vs. rewrite Hf.
    etransitivity; [apply first_by_key_length|].
    unfold scanspec.eligible_paths. rewrite length_fmap.
    apply filter_and_length_le. }
  split; [exact Hr|]. split.
  { intros st v Hex. rewrite visit_cases, Hex.
    replace (scanspec.is_allowed allowed v) with false; [reflexivity|].
    unfold scanspec.is_allowed, scanspec.is_excluded in *.
    destruct (scanspec.is_entry v); simpl in *; [|discriminate].
    destruct (photosbackup.get_bool allowed (scanspec.ext_of v));
      simpl in *; congruence. }
  intros t v Htree Hin Hdir.
  assert (He : scanspec.is_entry v = true).
  { unfold vs in Hin. rewrite Htree in Hin.
    eapply walk_entries; eauto. }
  split; [exact He|].
  unfold scanspec.is_excluded, scanspec.is_allowed. rewrite He. reflexivity.
Qed.

Lemma C9_witness :
  scanspec.total
    (photosbackup.excluded
       (photosbackup.scan sample.disk_dup "lib" GoTime.zero [".jpg"]))
  = 1.
Proof.
  refine (proj1 (C9_exclusion_accounting sample.disk_dup "lib" GoTime.zero
                   [".jpg"] _)).
  vm_compute. reflexivity.
Defined.

(* --------------------------------------------------------------------- *)
(** ** C6: grouping                                                      *)
(* --------------------------------------------------------------------- *)

Section Grouping.

Import photosbackup scanspec.

Variable fs : FS.

Lemma concat_perm (l l' : list (list string)) :
  l ≡ₚ l' -> concat l ≡ₚ concat l'.
Proof.
  induction 1 as [|x l l' _ IH|x y l|l1 l2 l3 _ IH1 _ IH2]; simpl.
  - reflexivity.
  - now rewrite IH.
  - rewrite !app_assoc. apply Permutation_app_tail, Permutation_app_comm.
  - now rewrite IH1.
Qed.

Lemma members_insert (g : gmap string (list string)) (k f : string) :
  members (<[k := get_list g k ++ [f]]> g) ≡ₚ members g ++ [f].
Proof.
  unfold members, get_list. destruct (g !! k) as [l|] eqn:E; simpl.
  - rewrite <- insert_delete_eq.
    rewrite (concat_perm _ (snd <$> (k, l ++ [f]) :: map_to_list (delete k g))).
    2:{ apply fmap_Permutation, map_to_list_insert, lookup_delete_eq. }
    rewrite (concat_perm (snd <$> map_to_list g)
               (snd <$> (k, l) :: map_to_list (delete k g))).
    2:{ apply fmap_Permutation. symmetry. now apply map_to_list_delete. }
    simpl. rewrite <- !app_assoc. apply Permutation_app_head.
    apply Permutation_app_comm.
  - rewrite (concat_perm _ (snd <$> (k, [f]) :: map_to_list g)).
    2:{ apply fmap_Permutation, map_to_list_insert, E. }
    simpl. apply Permutation_cons_append.
Qed.

Lemma group_step_resolved (g : gmap string (list string)) (f : string) :
  snd (getPhotoMeta fs f) = None ->
  group_step fs g f = <[group_of fs f := get_list g (group_of fs f) ++ [f]]> g.
Proof.
  intros H. unfold group_step, group_of.
  destruct (getPhotoMeta fs f) as [meta err]. simpl in *. now subst err.
Qed.

Lemma group_step_failed (g : gmap string (list string)) (f : string) :
  snd (getPhotoMeta fs f) <> None -> group_step fs g f = g.
Proof.
  intros H. unfold group_step.
  destruct (getPhotoMeta fs f) as [meta [e|]]; simpl in *; congruence.
Qed.

(** The groups after a fold over resolvable files. *)
Lemma group_fold (l : list string) :
  forall g : gmap string (list string),
    (forall f, f ∈ l -> snd (getPhotoMeta fs f) = None) ->
    (forall k, get_list (fold_left (group_step fs) l g) k
               = get_list g k
                 ++ List.filter (fun f => String.eqb (group_of fs f) k) l)
    /\ members (fold_left (group_step fs) l g) ≡ₚ members g ++ l
    /\ (forall k, is_Some (fold_left (group_step fs) l g !! k) <->
                  is_Some (g !! k) \/ exists f, f ∈ l /\ group_of fs f = k).
Proof.
  induction l as [|f l IH]; intros g Hres; cbn [fold_left].
  - split; [intros k; cbn [List.filter]; now rewrite app_nil_r|].
    split; [now rewrite app_nil_r|].
    intros k. split; [intros H; left; exact H|].
    intros [H|(f & Hf & _)]; [exact H|].
    exfalso. eapply not_elem_of_nil; exact Hf.
  - rewrite group_step_resolved by (apply Hres; apply list_elem_of_here).
    destruct (IH (<[group_of fs f := get_list g (group_of fs f) ++ [f]]> g))
      as (Hg & Hm & Hd).
    { intros x Hx. apply Hres. apply list_elem_of_further. exact Hx. }
    split; [|split].
    + intros k. rewrite Hg. cbn [List.filter]. unfold get_list at 1.
      destruct (String.eqb (group_of fs f) k) eqn:E.
      * apply String.eqb_eq in E. subst k. rewrite lookup_insert_eq.
        cbn [default from_option id]. rewrite <- app_assoc. reflexivity.
      * apply String.eqb_neq in E. rewrite lookup_insert_ne by exact E.
        reflexivity.
    + rewrite Hm, members_insert. rewrite <- app_assoc. reflexivity.
    + intros k. rewrite Hd. rewrite lookup_insert_is_Some. split.
      * intros [[Hk|[_ H]]|(x & Hx & Hk)].
        -- right. exists f. split; [apply list_elem_of_here|exact Hk].
        -- left. exact H.
        -- right. exists x. split; [apply list_elem_of_further; exact Hx|exact Hk].
      * intros [H|(x & Hx & Hk)].
        -- left. destruct (decide (group_of fs f = k)) as [Heq|Hne];
             [left; exact Heq|right; split; [exact Hne|exact H]].
        -- apply elem_of_cons in Hx as [Hx|Hx].
           ++ left. left. subst x. exact Hk.
           ++ right. exists x. split; [exact Hx|exact Hk].
Qed.

End Grouping.

(** Every file that the scan returns resolves again on the same disk. *)
Lemma eligible_resolves (fs : FS) (since : GoTime.Time)
    (allowed : gmap string bool) (vs : list Visit) (p : string) :
  p ∈ scanspec.eligible_paths fs since allowed vs ->
  snd (photosbackup.getPhotoMeta fs p) = None.
Proof.
  unfold scanspec.eligible_paths. intros H.
  apply list_elem_of_fmap in H as (v & -> & Hv).
  apply list_elem_of_In, filter_In in Hv as [_ Hv].
  unfold scanspec.is_eligible in Hv. apply andb_true_iff in Hv as [_ Hv].
  now apply passes_resolves in Hv.
Qed.

Lemma first_by_key_subset (key : string -> string) (l : list string) :
  forall S p, p ∈ scanspec.first_by_key key S l -> p ∈ l.
Proof.
  induction l as [|a l IH]; intros S p; simpl; [auto|].
  case_bool_decide as Hk.
  - intros H. right. eapply IH; eauto.
  - intros H. apply elem_of_cons in H as [->|H]; [left|right; eapply IH; eauto].
Qed.

Lemma scan_files_resolve (d : Disk) (root : string) (since : GoTime.Time)
    (allowedExts : list string) (p : string) :
  p ∈ fst (photosbackup.FindNewPhotos d root since allowedExts) ->
  snd (photosbackup.getPhotoMeta (d_files d) p) = None.
Proof.
  unfold photosbackup.FindNewPhotos, photosbackup.scan. simpl.
  destruct (scan_fold (d_files d) since (photosbackup.allowed_of allowedExts)
              (WalkDir root (d_tree d root)) photosbackup.scan_init ∅
              seen_is_init) as (Hf & _ & _).
  rewrite Hf. simpl. intros H. apply first_by_key_subset in H.
  eapply eligible_resolves; eauto.
Qed.

Lemma holds_from_spec (f : Z -> bool) (n : nat) :
  forall z, keyspec.holds_from f n z = true ->
            forall i, z <= i < z + Z.of_nat n -> f i = true.
Proof.
  induction n as [|n IH]; intros z H i Hi; [lia|].
  cbn [keyspec.holds_from] in H. apply andb_true_iff in H as [H0 H1].
  destruct (Z.eq_dec i z) as [->|Hne]; [exact H0|].
  apply (IH (z + 1) H1). lia.
Qed.

Lemma month_range (t : GoTime.Time) : 1 <= GoTime.Month t <= 12.
Proof.
  assert (E : GoTime.Month t
              = keyspec.month_of_doe ((GoTime.absDays t + 306) mod 146097))
    by reflexivity.
  rewrite E.
  assert (Hall : keyspec.holds_from
                   (fun d => (1 <=? keyspec.month_of_doe d)
                             && (keyspec.month_of_doe d <=? 12))
                   (Z.to_nat 146097) 0 = true)
    by (vm_compute; reflexivity).
  pose proof (Z.mod_pos_bound (GoTime.absDays t + 306) 146097 ltac:(lia)) as Hb.
  pose proof (holds_from_spec _ _ _ Hall
                ((GoTime.absDays t + 306) mod 146097) ltac:(lia)) as H.
  cbv beta in H. apply andb_true_iff in H as [H1 H2].
  apply Z.leb_le in H1, H2. lia.
Qed.

Lemma year_decimal (y : Z) :
  0 <= y <= 9999 ->
  String.length (GoStr.fmt_0d 4 y) = 4%nat
  /\ keyspec.decimal (GoStr.fmt_0d 4 y) = Some y.
Proof.
  intros Hy.
  assert (Hall : keyspec.holds_from
                   (fun y => (String.length (GoStr.fmt_0d 4 y) =? 4)%nat
                             && match keyspec.decimal (GoStr.fmt_0d 4 y) with
                                | Some z => z =? y
                                | None => false
                                end)
                   (Z.to_nat 10000) 0 = true)
    by (vm_compute; reflexivity).
  pose proof (holds_from_spec _ _ _ Hall y ltac:(lia)) as H.
  cbv beta in H. apply andb_true_iff in H as [H1 H2].
  apply Nat.eqb_eq in H1. split; [exact H1|].
  destruct (keyspec.decimal (GoStr.fmt_0d 4 y)) as [z|]; [|discriminate].
  apply Z.eqb_eq in H2. now subst z.
Qed.

Lemma month_decimal (m : Z) :
  1 <= m <= 12 ->
  String.length (GoStr.fmt_0d 2 m) = 2%nat
  /\ keyspec.decimal (GoStr.fmt_0d 2 m) = Some m.
Proof.
  intros Hm.
  assert (Hall : keyspec.holds_from
                   (fun m => (String.length (GoStr.fmt_0d 2 m) =? 2)%nat
                             && match keyspec.decimal (GoStr.fmt_0d 2 m) with
                                | Some z => z =? m
                                | None => false
                                end)
                   12 1 = true)
    by (vm_compute; reflexivity).
  pose proof (holds_from_spec _ _ _ Hall m ltac:(lia)) as H.
  cbv beta in H. apply andb_true_iff in H as [H1 H2].
  apply Nat.eqb_eq in H1. split; [exact H1|].
  destruct (keyspec.decimal (GoStr.fmt_0d 2 m)) as [z|]; [|discriminate].
  apply Z.eqb_eq in H2. now subst z.
Qed.

(** The grouper sees only the files it can read. *)
Lemma group_readable (fs : FS) (l : list string) :
  forall acc,
    fold_left (photosbackup.group_step fs) l acc
    = fold_left (photosbackup.group_step fs) (scanspec.readable fs l) acc.
Proof.
  unfold scanspec.readable.
  induction l as [|f l IH]; intros acc; cbn [fold_left List.filter];
    [reflexivity|].
  destruct (snd (photosbackup.getPhotoMeta fs f)) as [e|] eqn:E;
    cbn [is_nil].
  - rewrite group_step_failed by (rewrite E; discriminate). apply IH.
  - cbn [fold_left]. apply IH.
Qed.

Lemma readable_spec (fs : FS) (l : list string) (f : string) :
  f ∈ scanspec.readable fs l
  <-> f ∈ l /\ snd (photosbackup.getPhotoMeta fs f) = None.
Proof.
  unfold scanspec.readable.
  rewrite list_elem_of_In, filter_In, <- list_elem_of_In.
  destruct (snd (photosbackup.getPhotoMeta fs f)); cbn [is_nil];
    intuition congruence.
Qed.

Lemma readable_all (fs : FS) (l : list string) :
  (forall f, f ∈ l -> snd (photosbackup.getPhotoMeta fs f) = None) ->
  scanspec.readable fs l = l.
Proof.
  unfold scanspec.readable.
  induction l as [|f l IH]; intros H; cbn [List.filter]; [reflexivity|].
  rewrite (H f) by apply list_elem_of_here. cbn [is_nil].
  f_equal. apply IH. intros x Hx. apply H. now apply list_elem_of_further.
Qed.

(** C6. The grouper puts every file that [getPhotoMeta] resolves when the
    grouper runs in exactly one group, the group of the key [%04d-%02d] of
    the year and the month of its resolved timestamp (read in UTC, the
    location the model fixes): the month part is two digits that write a
    number from 1 to 12, the year part of a year from 0 to 9999 is four
    digits that write the year.  The group of a key holds, in input order,
    exactly the resolved files with that key; a key has a group iff some
    resolved file has it; the members of all groups together are a
    permutation of the resolved files.  A file that cannot be opened any
    more is in no group.  When every file resolves -- as every file
    returned by the scan does while the disk is unchanged -- the members
    are a permutation of the whole input. *)
Theorem C6_grouping_total :
  forall (fs : FS) (fileList : list string),
    let readable := scanspec.readable fs fileList in
    let g := photosbackup.GroupPhotosByYearMonth fs fileList in
    (forall f,
       let t := photosbackup.Taken (fst (photosbackup.getPhotoMeta fs f)) in
       scanspec.group_of fs f
       = GoStr.fmt_0d 4 (GoTime.Year t) +:+ "-" +:+ GoStr.fmt_0d 2 (GoTime.Month t)
       /\ 1 <= GoTime.Month t <= 12
       /\ String.length (GoStr.fmt_0d 2 (GoTime.Month t)) = 2%nat
       /\ keyspec.decimal (GoStr.fmt_0d 2 (GoTime.Month t)) = Some (GoTime.Month t)
       /\ (0 <= GoTime.Year t <= 9999 ->
           String.length (GoStr.fmt_0d 4 (GoTime.Year t)) = 4%nat
           /\ keyspec.decimal (GoStr.fmt_0d 4 (GoTime.Year t))
              = Some (GoTime.Year t)))
    /\ (forall k,
          photosbackup.get_list g k
          = List.filter (fun f => String.eqb (scanspec.group_of fs f) k) readable)
    /\ (forall f k,
          f ∈ fileList ->
          (f ∈ photosbackup.get_list g k
           <-> snd (photosbackup.getPhotoMeta fs f) = None
               /\ k = scanspec.group_of fs f))
    /\ (forall k, is_Some (g !! k) <->
                  exists f, f ∈ readable /\ scanspec.group_of fs f = k)
    /\ scanspec.members g ≡ₚ readable
    /\ (forall f k, snd (photosbackup.getPhotoMeta fs f) <> None ->
                    f ∉ photosbackup.get_list g k)
    /\ ((forall f, f ∈ fileList ->
                   snd (photosbackup.getPhotoMeta fs f) = None) ->
        scanspec.members g ≡ₚ fileList)
    /\ (forall (d : Disk) (root : string) (since : GoTime.Time)
               (allowedExts : list string),
          fs = d_files d ->
          fileList = fst (photosbackup.FindNewPhotos d root since allowedExts) ->
          scanspec.members g ≡ₚ fileList).
Proof.
  intros fs fileList readable g.
  assert (Hok : forall f, f ∈ readable ->
                          snd (photosbackup.getPhotoMeta fs f) = None).
  { intros f Hf. now apply readable_spec in Hf. }
  assert (Hg : g = photosbackup.GroupPhotosByYearMonth fs readable)
    by apply group_readable.
  destruct (group_fold fs readable ∅ Hok) as (Hg0 & Hm & Hd).
  fold (photosbackup.GroupPhotosByYearMonth fs readable) in Hg0, Hm, Hd.
  rewrite <- Hg in Hg0, Hm, Hd.
  assert (Hget : forall k,
    photosbackup.get_list g k
    = List.filter (fun f => String.eqb (scanspec.group_of fs f) k) readable).
  { intros k. rewrite Hg0. unfold photosbackup.get_list.
    now rewrite lookup_empty. }
  assert (Hmem : scanspec.members g ≡ₚ readable).
  { rewrite Hm. unfold scanspec.members. now rewrite map_to_list_empty. }
  assert (Hall : (forall f, f ∈ fileList ->
                            snd (photosbackup.getPhotoMeta fs f) = None) ->
                 scanspec.members g ≡ₚ fileList).
  { intros H. rewrite Hmem. unfold readable. now rewrite readable_all. }
  split.
  { intros f t. pose proof (month_range t) as Hmo.
    destruct (month_decimal _ Hmo) as [Hl Hv].
    split; [reflexivity|]. split; [exact Hmo|]. split; [exact Hl|].
    split; [exact Hv|]. apply year_decimal. }
  split; [exact Hget|]. split; [|split; [|split; [exact Hmem|split; [|split]]]].
  - intros f k Hf. rewrite Hget. rewrite list_elem_of_In, filter_In.
    rewrite <- list_elem_of_In, String.eqb_eq. unfold readable.
    rewrite readable_spec. split.
    + intros [[_ H1] H2]. split; [exact H1|now symmetry].
    + intros [H1 ->]. auto.
  - intros k. rewrite Hd. split.
    + intros [Hx|Hx]; [|exact Hx]. rewrite lookup_empty in Hx.
      now apply is_Some_None in Hx.
    + intros Hx. now right.
  - intros f k Hbad Hin. rewrite Hget in Hin.
    apply list_elem_of_In, filter_In in Hin as [Hin _].
    apply list_elem_of_In, Hok in Hin. contradiction.
  - exact Hall.
  - intros d root since allowedExts -> ->. apply Hall.
    intros f Hf. eapply scan_files_resolve; eauto.
Qed.

(** The files that the scan of [sample.disk_dup] returns are all grouped. *)
Lemma C6_witness :
  scanspec.members (photosbackup.GroupPhotosByYearMonth (d_files sample.disk_dup)
             (fst (photosbackup.FindNewPhotos sample.disk_dup "lib" GoTime.zero
                     [".jpg"])))
  ≡ₚ fst (photosbackup.FindNewPhotos sample.disk_dup "lib" GoTime.zero [".jpg"]).
Proof.
  refine (proj2 (proj2 (proj2 (proj2 (proj2 (proj2 (proj2
    (C6_grouping_total (d_files sample.disk_dup)
       (fst (photosbackup.FindNewPhotos sample.disk_dup "lib" GoTime.zero
               [".jpg"])))))))))
    sample.disk_dup "lib" GoTime.zero [".jpg"] _ _); reflexivity.
Defined.

(** C6 as stated fails: an entry returned by the scan is not always in a
    group.  The scan of [sample.disk_one] returns its picture; when the
    picture cannot be opened any more at the time the grouper runs (the
    files of [sample.disk_locked]) the grouper skips it and returns no
    group at all. *)
Lemma C6_counterexample :
  ~ (forall (d : Disk) (root : string) (since : GoTime.Time)
            (allowedExts : list string) (fs : FS) (f : string),
       let fileList := fst (photosbackup.FindNewPhotos d root since allowedExts) in
       f ∈ fileList ->
       exists k, f ∈ photosbackup.get_list
                       (photosbackup.GroupPhotosByYearMonth fs fileList) k).
Proof.
  intros H.
  destruct (H sample.disk_one "lib" GoTime.zero [".jpg"]
              (d_files sample.disk_locked) "lib/a.jpg") as [k Hk].
  { vm_compute. apply list_elem_of_here. }
  replace (photosbackup.GroupPhotosByYearMonth (d_files sample.disk_locked)
             (fst (photosbackup.FindNewPhotos sample.disk_one "lib" GoTime.zero
                     [".jpg"])))
    with (∅ : gmap string (list string)) in Hk by (vm_compute; reflexivity).
  unfold photosbackup.get_list in Hk. rewrite lookup_empty in Hk.
  now apply elem_of_nil in Hk.
Qed.

Example grouping_two_months :
  photosbackup.GroupPhotosByYearMonth (d_files sample.disk_dup)
    ["lib/a/x.jpg"; "lib/b/y.JPG"; "lib/b/x.jpg"]
  = {[ "2024-03" := ["lib/a/x.jpg"; "lib/b/x.jpg"];
       "2024-04" := ["lib/b/y.JPG"] ]}.
Proof. vm_compute. reflexivity. Qed.

(* --------------------------------------------------------------------- *)
(** ** The steps of the upload pipeline                                  *)
(* --------------------------------------------------------------------- *)

Section Pipeline.

Import photosbackup backup.

Variable cfg : Config.
Variable env : Env.
Variable fs : FS.

(** Two states are equal when their fields are. *)
Lemma St_eq (a b : St) :
  st_ledger a = st_ledger b -> st_local a = st_local b ->
  st_clock a = st_clock b -> st_puts a = st_puts b ->
  uploadState a = uploadState b -> failedZips a = failedZips b ->
  failedUploads a = failedUploads b -> fileProgress a = fileProgress b ->
  st_trace a = st_trace b -> a = b.
Proof. destruct a, b; simpl; intros; subst; reflexivity. Qed.

Lemma emit_run (e : Event) (s : St) :
  emit e s = (tt, with_trace (st_trace s ++ [e]) s).
Proof. reflexivity. Qed.

Lemma ZipFiles_run (z : string) (l : list string) (s : St) :
  ZipFiles env fs z l s =
    if e_create env z
    then (addFiles env fs z l,
          with_trace (st_trace s ++ [EvZipFiles z l (is_nil (addFiles env fs z l))])
            (with_local ({[z]} ∪ st_local s) s))
    else (Some "create failed",
          with_trace (st_trace s ++ [EvZipFiles z l false]) s).
Proof. unfold ZipFiles. destruct (e_create env z); reflexivity. Qed.

Lemma progress_loop_run (l : list string) :
  forall s : St,
    progress_loop l s =
      (tt, with_trace (st_trace s ++ progress_events l)
             (with_fileProgress (Nat.iter (length l) int_incr (fileProgress s)) s)).
Proof.
  induction l as [|f l IH]; intros s.
  - simpl. f_equal. apply St_eq; simpl; try reflexivity.
    now rewrite app_nil_r.
  - simpl. unfold bind, Lock, Unlock, modify, emit. simpl.
    rewrite IH. f_equal. apply St_eq; simpl; try reflexivity.
    + now rewrite <- Nat.iter_succ_r.
    + now rewrite <- !app_assoc.
Qed.

Lemma UploadToS3_run (key z : string) (s : St) :
  z ∈ st_local s ->
  let n := S (default O (st_puts s !! key)) in
  UploadToS3 env key z s =
    (if e_put env key n then None else Some "PutObject failed",
     with_trace (st_trace s ++ [EvUploadToS3 key z (e_put env key n)])
       (with_puts (<[key := n]> (st_puts s)) s)).
Proof.
  intros Hin n. unfold UploadToS3, bind, get.
  rewrite bool_decide_eq_true_2 by exact Hin. reflexivity.
Qed.

Lemma UploadToS3_missing (key z : string) (s : St) :
  z ∉ st_local s ->
  UploadToS3 env key z s =
    (Some "open: no such file or directory",
     with_trace (st_trace s ++ [EvUploadToS3 key z false]) s).
Proof.
  intros Hin. unfold UploadToS3, bind, get.
  rewrite bool_decide_eq_false_2 by exact Hin. reflexivity.
Qed.

(** One iteration of the retry loop. *)
Lemma upload_loop_step (key z : string) (fuel : nat) (attempt : Z)
    (err : error) (s : St) :
  z ∈ st_local s -> attempt <= 3 ->
  let n := S (default O (st_puts s !! key)) in
  upload_loop env key z (S fuel) attempt err s =
    if e_put env key n then
      (None, with_trace (st_trace s ++ [EvUploadToS3 key z true])
               (with_puts (<[key := n]> (st_puts s)) s))
    else
      upload_loop env key z fuel (attempt + 1) (Some "PutObject failed")
        (with_trace (st_trace s ++ [EvUploadToS3 key z false;
                                    EvWarnAttempt attempt z; EvSleep attempt])
           (with_clock (st_clock s + attempt * GoTime.Second)
              (with_puts (<[key := n]> (st_puts s)) s))).
Proof.
  intros Hin Hle n. simpl upload_loop.
  replace (attempt <=? 3) with true by (symmetry; apply Z.leb_le; exact Hle).
  unfold bind at 1. rewrite UploadToS3_run by exact Hin. fold n.
  destruct (e_put env key n); simpl; [reflexivity|].
  unfold bind, emit, Sleep, modify, bind, emit, modify. simpl.
  f_equal. apply St_eq; simpl; try reflexivity.
  now rewrite <- !app_assoc.
Qed.

(** The retry loop, by the answers of the first three calls. *)
Lemma upload_loop_run (key z : string) (s : St) :
  z ∈ st_local s ->
  let n0 := default O (st_puts s !! key) in
  let up := EvUploadToS3 key z in
  upload_loop env key z 3 1 None s =
    if e_put env key (1 + n0) then
      (None, loop_state s key (1 + n0) 0 [up true])
    else if e_put env key (2 + n0) then
      (None, loop_state s key (2 + n0) 1
               [up false; EvWarnAttempt 1 z; EvSleep 1; up true])
    else if e_put env key (3 + n0) then
      (None, loop_state s key (3 + n0) 3
               [up false; EvWarnAttempt 1 z; EvSleep 1;
                up false; EvWarnAttempt 2 z; EvSleep 2; up true])
    else
      (Some "PutObject failed",
       loop_state s key (3 + n0) 6
         [up false; EvWarnAttempt 1 z; EvSleep 1;
          up false; EvWarnAttempt 2 z; EvSleep 2;
          up false; EvWarnAttempt 3 z; EvSleep 3]).
Proof.
  intros Hin n0 up.
  change (1 + n0)%nat with (S n0). change (2 + n0)%nat with (S (S n0)).
  change (3 + n0)%nat with (S (S (S n0))).
  rewrite upload_loop_step by (exact Hin || lia). fold n0.
  destruct (e_put env key (S n0)).
  { f_equal. apply St_eq; simpl; try reflexivity; lia. }
  rewrite upload_loop_step by (exact Hin || lia).
  simpl st_puts. rewrite lookup_insert_eq. simpl default.
  destruct (e_put env key (S (S n0))).
  { f_equal. apply St_eq; simpl; try reflexivity.
    - now rewrite insert_insert_eq.
    - now rewrite <- !app_assoc. }
  rewrite upload_loop_step by (exact Hin || lia).
  simpl st_puts. rewrite lookup_insert_eq. simpl default.
  destruct (e_put env key (S (S (S n0)))).
  { f_equal. apply St_eq; simpl; try reflexivity.
    - unfold GoTime.Second. lia.
    - now rewrite !insert_insert_eq.
    - now rewrite <- !app_assoc. }
  simpl upload_loop. unfold ret. f_equal. apply St_eq; simpl; try reflexivity.
  - unfold GoTime.Second. lia.
  - now rewrite !insert_insert_eq.
  - now rewrite <- !app_assoc.
Qed.

Lemma verify_run (key z : string) (s : St) :
  verify cfg env key z s =
    (tt, with_trace
           (st_trace s ++
            verify_events cfg key z
              (if bool_decide (z ∈ st_local s) then e_local_sum env z else None)
              (e_remote_sum env key)) s).
Proof.
  unfold verify, verify_events.
  destruct (String.eqb (GoStr.ToUpper (StorageClass cfg)) "GLACIER"
            || String.eqb (GoStr.ToUpper (StorageClass cfg)) "DEEP_ARCHIVE");
    [reflexivity|].
  unfold bind, FileSHA256, S3SHA256, bind, emit, modify, get, ret. simpl.
  destruct (bool_decide (z ∈ st_local s)); simpl.
  - destruct (e_local_sum env z) as [l|]; simpl.
    + destruct (e_remote_sum env key) as [r|]; simpl.
      * destruct (String.eqb l r); simpl; f_equal;
          apply St_eq; simpl; try reflexivity; now rewrite <- !app_assoc.
      * f_equal. apply St_eq; simpl; try reflexivity.
        now rewrite <- !app_assoc.
    + f_equal. apply St_eq; simpl; try reflexivity.
      now rewrite <- !app_assoc.
  - f_equal. apply St_eq; simpl; try reflexivity. now rewrite <- !app_assoc.
Qed.

(** The goroutine after a successful upload. *)
Lemma complete_group_run (sp ym key z : string) (s : St) :
  let us := <[ym := z]> (uploadState s) in
  let sv := ledger.SaveUploadState (e_save env us) (st_ledger s) sp
              {| ledger.CompletedMonths := us |} in
  complete_group cfg env sp ym key z s =
    (tt, with_local (st_local s ∖ {[z]})
           (with_trace
              (st_trace s ++
               verify_events cfg key z
                 (if bool_decide (z ∈ st_local s) then e_local_sum env z
                  else None)
                 (e_remote_sum env key) ++
               [EvLedgerStore ym z; EvSaveUploadState (is_nil (snd sv));
                EvLock ProgressMu; EvUpdateBar; EvUnlock ProgressMu;
                EvRemove z])
              (with_ledger (fst sv) (with_uploadState us s)))).
Proof.
  intros us sv. unfold complete_group.
  unfold bind at 1. rewrite verify_run.
  unfold mark_completed, Lock, Unlock, bind, emit, modify, get. simpl.
  fold us. fold sv. destruct sv as [disk err]. simpl.
  f_equal. apply St_eq; simpl; try reflexivity.
  now rewrite <- !app_assoc.
Qed.

(** The body of the goroutine, stage by stage. *)
Lemma worker_body_run (sp ym : string) (l : list string) (s : St) :
  let z := zip_name ym (st_clock s) in
  let key := key_for cfg ym z in
  worker_body cfg env fs sp ym l s =
    if e_create env z then
      match addFiles env fs z l with
      | Some _ =>
          (tt, with_trace (st_trace s ++ [EvZipFiles z l false; EvErrorZip z;
                                          EvLock Mu; EvUnlock Mu])
                 (with_failedZips (int_incr (failedZips s))
                    (with_local ({[z]} ∪ st_local s) s)))
      | None =>
          let r := upload_loop env key z 3 1 None (before_upload s z l) in
          if is_nil (fst r) then complete_group cfg env sp ym key z (snd r)
          else
            (tt, with_trace (st_trace (snd r) ++ [EvErrorUpload z; EvLock Mu;
                                                  EvUnlock Mu])
                   (with_failedUploads (int_incr (failedUploads (snd r)))
                      (snd r)))
      end
    else
      (tt, with_trace (st_trace s ++ [EvZipFiles z l false; EvErrorZip z;
                                      EvLock Mu; EvUnlock Mu])
             (with_failedZips (int_incr (failedZips s)) s)).
Proof.
  intros z key. unfold worker_body.
  unfold bind at 1, Now. fold (zip_name ym (st_clock s)). fold z.
  unfold bind at 1. rewrite ZipFiles_run.
  destruct (e_create env z).
  - destruct (addFiles env fs z l) as [e|] eqn:Eadd; cbn [is_nil negb].
    + unfold Lock, Unlock, bind, emit, modify. cbn [fst snd].
      f_equal. apply St_eq; simpl; try reflexivity.
      now rewrite <- !app_assoc.
    + unfold bind at 1. rewrite progress_loop_run.
      fold (key_for cfg ym z). fold key.
      unfold bind at 1.
      replace (with_trace _ (with_fileProgress _ _)) with (before_upload s z l).
      2:{ unfold before_upload. apply St_eq; simpl; try reflexivity.
          now rewrite <- app_assoc. }
      destruct (upload_loop env key z 3 1 None (before_upload s z l))
        as [err s2]. cbn [fst snd].
      destruct (is_nil err); cbn [negb]; [reflexivity|].
      unfold Lock, Unlock, bind, emit, modify. cbn [fst snd].
      f_equal. apply St_eq; simpl; try reflexivity.
      now rewrite <- !app_assoc.
  - cbn [is_nil negb].
    unfold Lock, Unlock, bind, emit, modify. cbn [fst snd].
    f_equal. apply St_eq; simpl; try reflexivity.
    now rewrite <- !app_assoc.
Qed.

End Pipeline.

(* --------------------------------------------------------------------- *)
(** ** C5: the checksum step                                             *)
(* --------------------------------------------------------------------- *)

(** C5. Once the upload of a group has succeeded the goroutine runs
    [complete_group].  When the upper-cased storage class is GLACIER or
    DEEP_ARCHIVE the checksum step only logs that it is skipped and calls
    neither [FileSHA256] nor [S3SHA256].  Otherwise the local checksum is
    computed, then the remote one, and they are compared; a failure of
    either and a mismatch are logged.  In every case the steps that follow
    are the same: the month is stored in the ledger map, the ledger is
    saved, the bar is updated and the archive is removed; no failure
    counter moves. *)
Theorem C5_verification_advisory :
  forall (cfg : photosbackup.Config) (env : Env)
         (sp ym key z : string) (s : backup.St),
    let class := GoStr.ToUpper (photosbackup.StorageClass cfg) in
    let cold := String.eqb class "GLACIER" || String.eqb class "DEEP_ARCHIVE" in
    let localSum := if bool_decide (z ∈ backup.st_local s)
                    then e_local_sum env z else None in
    let remoteSum := e_remote_sum env key in
    let us := <[ym := z]> (backup.uploadState s) in
    let s' := snd (backup.complete_group cfg env sp ym key z s) in
    let checks :=
      if cold then [EvSkipVerify z]
      else match localSum with
           | None => [EvFileSHA256 z; EvErrorLocalSum z]
           | Some l =>
               match remoteSum with
               | None => [EvFileSHA256 z; EvS3SHA256 key; EvErrorRemoteSum z]
               | Some r =>
                   [EvFileSHA256 z; EvS3SHA256 key;
                    if String.eqb l r then EvChecksumOk z
                    else EvErrorMismatch z]
               end
           end in
    backup.st_trace s'
    = backup.st_trace s ++ checks ++
      [EvLedgerStore ym z;
       EvSaveUploadState
         (match e_save env us with ledger.SaveOk => true | _ => false end);
       EvLock ProgressMu; EvUpdateBar; EvUnlock ProgressMu; EvRemove z]
    /\ backup.uploadState s' = us
    /\ backup.st_ledger s' sp
       = match e_save env us with
         | ledger.SaveOk => ledger.Holds us false
         | ledger.CreateFails => backup.st_ledger s sp
         | ledger.EncodeFails => ledger.Holds ∅ true
         end
    /\ backup.st_local s' = backup.st_local s ∖ {[z]}
    /\ backup.failedZips s' = backup.failedZips s
    /\ backup.failedUploads s' = backup.failedUploads s
    /\ (forall (fs : FS) (l : list string) (s0 : backup.St),
          let z0 := backup.zip_name ym (backup.st_clock s0) in
          let k0 := backup.key_for cfg ym z0 in
          let r := backup.upload_loop env k0 z0 3 1 None
                     (backup.before_upload s0 z0 l) in
          e_create env z0 = true ->
          backup.addFiles env fs z0 l = None ->
          fst r = None ->
          backup.worker_body cfg env fs sp ym l s0
          = backup.complete_group cfg env sp ym k0 z0 (snd r)).
Proof.
  intros cfg env sp ym key z s class cold localSum remoteSum us s' checks.
  unfold s'. rewrite complete_group_run. cbn [snd].
  fold us. fold localSum. fold remoteSum.
  split.
  { simpl. unfold backup.verify_events. fold class. fold cold. fold checks.
    do 3 f_equal. unfold ledger.SaveUploadState.
    destruct (e_save env us); reflexivity. }
  split; [reflexivity|]. split.
  { simpl. unfold ledger.SaveUploadState.
    destruct (e_save env us); simpl; try reflexivity;
      now rewrite String.eqb_refl. }
  split; [reflexivity|]. split; [reflexivity|]. split; [reflexivity|].
  intros fs l s0 Hc Ha Hr.
  rewrite worker_body_run. cbv zeta. rewrite Hc, Ha, Hr. reflexivity.
Qed.

Lemma C5_witness :
  backup.worker_body (sample.cfg "glacier") (sample.env_put_from 1)
    (d_files sample.disk_one) backup.statePath "2024-03" ["lib/a.jpg"]
    (backup.start (sample.world sample.disk_one) [])
  = backup.complete_group (sample.cfg "glacier") (sample.env_put_from 1)
      backup.statePath "2024-03"
      "2024/2024-03_20250101T020000.zip" "2024-03_20250101T020000.zip"
      (snd (backup.upload_loop (sample.env_put_from 1)
              "2024/2024-03_20250101T020000.zip" "2024-03_20250101T020000.zip"
              3 1 None
              (backup.before_upload
                 (backup.start (sample.world sample.disk_one) [])
                 "2024-03_20250101T020000.zip" ["lib/a.jpg"]))).
Proof.
  refine (proj2 (proj2 (proj2 (proj2 (proj2 (proj2
    (C5_verification_advisory (sample.cfg "glacier") (sample.env_put_from 1)
       backup.statePath "2024-03" "" ""
       (backup.start (sample.world sample.disk_one) []))))))) 
    (d_files sample.disk_one) ["lib/a.jpg"]
    (backup.start (sample.world sample.disk_one) []) _ _ _);
    vm_compute; reflexivity.
Defined.

(** The checksum step under three storage classes. *)
Example verify_by_class :
  backup.verify_events (sample.cfg "Glacier") "k" "z" (Some "aa") (Some "bb")
    = [EvSkipVerify "z"]
  /\ backup.verify_events (sample.cfg "deep_archive") "k" "z" None None
    = [EvSkipVerify "z"]
  /\ backup.verify_events (sample.cfg "STANDARD") "k" "z" (Some "aa") (Some "bb")
    = [EvFileSHA256 "z"; EvS3SHA256 "k"; EvErrorMismatch "z"].
Proof. repeat split; vm_compute; reflexivity. Qed.

(* --------------------------------------------------------------------- *)
(** ** C4: the retry loop                                                *)
(* --------------------------------------------------------------------- *)

(** C4 (as the code has it). For a group whose archive was built, the
    upload is tried at most three times, and every failed attempt -- the
    third one too -- is followed by a sleep of [attempt] seconds; a
    successful attempt ends the loop at once.  When the first two calls
    fail and the third succeeds, the group is completed (ledger entry
    stored and saved, archive removed) and no failure counter moves.  When
    all three calls fail, [failedUploads] is incremented once, the ledger
    map and the ledger file are untouched, and the archive stays in the
    working directory. *)
Theorem C4_retry_bound_and_backoff :
  forall (cfg : photosbackup.Config) (env : Env) (fs : FS)
         (sp ym : string) (l : list string) (s : backup.St),
    let z := backup.zip_name ym (backup.st_clock s) in
    let key := backup.key_for cfg ym z in
    let n0 := default O (backup.st_puts s !! key) in
    let up := EvUploadToS3 key z in
    let s1 := backup.before_upload s z l in
    let r := backup.upload_loop env key z 3 1 None s1 in
    let s' := snd (backup.worker_body cfg env fs sp ym l s) in
    e_create env z = true ->
    backup.addFiles env fs z l = None ->
    backup.st_trace (snd r)
    = backup.st_trace s1 ++
      (if e_put env key (1 + n0) then [up true]
       else if e_put env key (2 + n0) then
         [up false; EvWarnAttempt 1 z; EvSleep 1; up true]
       else if e_put env key (3 + n0) then
         [up false; EvWarnAttempt 1 z; EvSleep 1;
          up false; EvWarnAttempt 2 z; EvSleep 2; up true]
       else
         [up false; EvWarnAttempt 1 z; EvSleep 1;
          up false; EvWarnAttempt 2 z; EvSleep 2;
          up false; EvWarnAttempt 3 z; EvSleep 3])
    /\ is_nil (fst r)
       = (e_put env key (1 + n0) || e_put env key (2 + n0)
          || e_put env key (3 + n0))
    /\ (e_put env key (1 + n0) = false -> e_put env key (2 + n0) = false ->
        e_put env key (3 + n0) = true ->
        exists checks saved,
          backup.st_trace s'
          = backup.st_trace s1 ++
            [up false; EvWarnAttempt 1 z; EvSleep 1;
             up false; EvWarnAttempt 2 z; EvSleep 2; up true] ++ checks ++
            [EvLedgerStore ym z; EvSaveUploadState saved;
             EvLock ProgressMu; EvUpdateBar; EvUnlock ProgressMu; EvRemove z]
          /\ Forall (fun e => backup.is_put e = false /\ backup.is_sleep e = false)
                    checks
          /\ backup.uploadState s' = (<[ym := z]> (backup.uploadState s))
          /\ (z ∉ backup.st_local s')
          /\ backup.failedUploads s' = backup.failedUploads s
          /\ backup.failedZips s' = backup.failedZips s)
    /\ (e_put env key (1 + n0) = false -> e_put env key (2 + n0) = false ->
        e_put env key (3 + n0) = false ->
        backup.st_trace s'
        = backup.st_trace s1 ++
          [up false; EvWarnAttempt 1 z; EvSleep 1;
           up false; EvWarnAttempt 2 z; EvSleep 2;
           up false; EvWarnAttempt 3 z; EvSleep 3;
           EvErrorUpload z; EvLock Mu; EvUnlock Mu]
        /\ backup.failedUploads s' = int_incr (backup.failedUploads s)
        /\ backup.failedZips s' = backup.failedZips s
        /\ backup.uploadState s' = backup.uploadState s
        /\ backup.st_ledger s' = backup.st_ledger s
        /\ z ∈ backup.st_local s').
Proof.
  intros cfg env fs sp ym l s z key n0 up s1 r s' Hc Ha.
  assert (Hin : z ∈ backup.st_local s1).
  { unfold s1, backup.before_upload. simpl. set_solver. }
  assert (Hr : r = backup.upload_loop env key z 3 1 None s1) by reflexivity.
  rewrite (upload_loop_run env key z s1 Hin) in Hr.
  change (default 0%nat (backup.st_puts s1 !! key)) with n0 in Hr.
  fold up in Hr.
  assert (Hs' : s' = snd (if is_nil (fst r)
                          then backup.complete_group cfg env sp ym key z (snd r)
                          else (tt, backup.with_trace
                                      (backup.st_trace (snd r) ++
                                       [EvErrorUpload z; EvLock Mu; EvUnlock Mu])
                                      (backup.with_failedUploads
                                         (int_incr (backup.failedUploads (snd r)))
                                         (snd r))))).
  { unfold s'. rewrite worker_body_run. fold z. fold key. rewrite Hc, Ha.
    reflexivity. }
  split; [|split; [|split]].
  - rewrite Hr.
    destruct (e_put env key (1 + n0)), (e_put env key (2 + n0)),
      (e_put env key (3 + n0)); reflexivity.
  - rewrite Hr.
    destruct (e_put env key (1 + n0)), (e_put env key (2 + n0)),
      (e_put env key (3 + n0)); reflexivity.
  - intros E1 E2 E3. rewrite E1, E2, E3 in Hr.
    rewrite Hr in Hs'. cbn [fst snd is_nil] in Hs'.
    rewrite complete_group_run in Hs'. cbn [snd] in Hs'.
    match type of Hs' with
    | context [backup.verify_events ?a ?b ?c ?d ?e] =>
        exists (backup.verify_events a b c d e)
    end.
    match type of Hs' with
    | context [EvSaveUploadState ?b] => exists b
    end.
    rewrite Hs'. split; [|split; [|split; [|split; [|split]]]].
    + cbn [backup.st_trace backup.with_trace backup.with_local
           backup.with_ledger backup.with_uploadState backup.loop_state
           backup.with_clock backup.with_puts].
      rewrite <- !app_assoc. reflexivity.
    + unfold backup.verify_events.
      destruct (_ || _); [repeat constructor|].
      destruct (if bool_decide _ then _ else _) as [a|]; [|repeat constructor].
      destruct (e_remote_sum env key) as [b|]; [|repeat constructor].
      destruct (String.eqb a b); repeat constructor.
    + reflexivity.
    + simpl. set_solver.
    + reflexivity.
    + reflexivity.
  - intros E1 E2 E3. rewrite E1, E2, E3 in Hr.
    rewrite Hr in Hs'. cbn [fst snd is_nil] in Hs'.
    rewrite Hs'. split; [|split; [|split; [|split; [|split]]]];
      try reflexivity.
    + simpl. rewrite <- !app_assoc. reflexivity.
    + simpl. set_solver.
Qed.

Lemma C4_witness :
  backup.failedUploads
    (snd (backup.worker_body (sample.cfg "STANDARD") (sample.env_put_from 4)
            (d_files sample.disk_one) backup.statePath "2024-03" ["lib/a.jpg"]
            (backup.start (sample.world sample.disk_one) [])))
  = 1.
Proof.
  refine (proj1 (proj2 (proj2 (proj2 (proj2
    (C4_retry_bound_and_backoff (sample.cfg "STANDARD") (sample.env_put_from 4)
       (d_files sample.disk_one) backup.statePath "2024-03" ["lib/a.jpg"]
       (backup.start (sample.world sample.disk_one) []) _ _))) _ _ _)));
    vm_compute; reflexivity.
Defined.

(** C4 as stated fails in its clause that no wait follows the final
    attempt: when all three calls fail, the log of the goroutine shows a
    sleep (of three seconds) after the last call of [UploadToS3]. *)
Lemma C4_counterexample :
  ~ (forall (cfg : photosbackup.Config) (env : Env) (fs : FS)
            (sp ym : string) (l : list string) (s : backup.St),
       backup.sleeps_after_last_put
         (backup.st_trace (snd (backup.worker_body cfg env fs sp ym l s)))
       = false).
Proof.
  intros H.
  specialize (H (sample.cfg "STANDARD") (sample.env_put_from 4)
                (d_files sample.disk_one) backup.statePath "2024-03"
                ["lib/a.jpg"] (backup.start (sample.world sample.disk_one) [])).
  vm_compute in H. discriminate H.
Qed.

(** The log of the goroutine when every call of [PutObject] fails. *)
Example three_failures_log :
  backup.st_trace
    (snd (backup.worker_body (sample.cfg "STANDARD") (sample.env_put_from 4)
            (d_files sample.disk_one) backup.statePath "2024-03" ["lib/a.jpg"]
            (backup.start (sample.world sample.disk_one) [])))
  = [ EvZipFiles "2024-03_20250101T020000.zip" ["lib/a.jpg"] true;
      EvLock ProgressMu; EvUpdateBar; EvUnlock ProgressMu;
      EvUploadToS3 "2024/2024-03_20250101T020000.zip"
        "2024-03_20250101T020000.zip" false;
      EvWarnAttempt 1 "2024-03_20250101T020000.zip"; EvSleep 1;
      EvUploadToS3 "2024/2024-03_20250101T020000.zip"
        "2024-03_20250101T020000.zip" false;
      EvWarnAttempt 2 "2024-03_20250101T020000.zip"; EvSleep 2;
      EvUploadToS3 "2024/2024-03_20250101T020000.zip"
        "2024-03_20250101T020000.zip" false;
      EvWarnAttempt 3 "2024-03_20250101T020000.zip"; EvSleep 3;
      EvErrorUpload "2024-03_20250101T020000.zip"; EvLock Mu; EvUnlock Mu ].
Proof. vm_compute. reflexivity. Qed.

(* --------------------------------------------------------------------- *)
(** ** C1: resume                                                        *)
(* --------------------------------------------------------------------- *)

Section Resume.

Import photosbackup backup.

Variable cfg : Config.
Variable env : Env.

(** A group whose month is in the ledger map is skipped. *)
Lemma group_loop_skip (fs : FS) (sp ym : string) (fl : list string)
    (rest : list (string * list string)) (s : St) :
  is_Some (uploadState s !! ym) ->
  group_loop cfg env fs sp ((ym, fl) :: rest) s = group_loop cfg env fs sp rest s.
Proof.
  intros [x Hx]. simpl. unfold bind, get. now rewrite Hx.
Qed.

(** When every month is in the ledger map the loop does nothing. *)
Lemma group_loop_all_done (fs : FS) (sp : string)
    (groups : list (string * list string)) (s : St) :
  (forall ym fl, (ym, fl) ∈ groups -> is_Some (uploadState s !! ym)) ->
  group_loop cfg env fs sp groups s = (tt, s).
Proof.
  induction groups as [|[ym fl] rest IH]; intros H; [reflexivity|].
  rewrite group_loop_skip by (eapply H; left).
  apply IH. intros ym' fl' Hin. eapply H. right. exact Hin.
Qed.

Lemma scan_log_events (fs : FS) (since : GoTime.Time)
    (allowed : gmap string bool) (vs : list Visit) :
  forall st,
    forallb is_scan_event (scan_log st) = true ->
    forallb is_scan_event (scan_log (fold_left (visit fs since allowed) vs st))
    = true.
Proof.
  induction vs as [|v vs IH]; intros st H; simpl; [exact H|].
  apply IH. rewrite visit_cases.
  destruct (scanspec.is_allowed allowed v).
  - cbv zeta. destruct (scanspec.passes fs since (v_path v));
      [destruct (negb _)|]; simpl; rewrite ?forallb_app, ?H; reflexivity.
  - destruct (scanspec.is_excluded allowed v); simpl; exact H.
Qed.

Lemma upload_metadata_run (s : St) :
  upload_metadata env s =
    if e_create env metaFile then
      (tt, with_trace
             (st_trace s ++
              [EvUploadToS3 metaFile metaFile
                 (e_put env metaFile (S (default O (st_puts s !! metaFile))))])
             (with_puts (<[metaFile := S (default O (st_puts s !! metaFile))]>
                           (st_puts s))
                (with_local ({[metaFile]} ∪ st_local s) s)))
    else (tt, s).
Proof.
  unfold upload_metadata. destruct (e_create env metaFile); [|reflexivity].
  cbn [negb]. unfold bind at 1, modify at 1. unfold bind at 1.
  rewrite UploadToS3_run by (simpl; set_solver). simpl. reflexivity.
Qed.

End Resume.

Lemma scan_event_not_archive (e : Event) :
  backup.is_scan_event e = true -> backup.is_archive_event e = false.
Proof. destruct e; simpl; congruence. Qed.

(** C1. When the ledger that is loaded has an entry for every group key
    of the files found, the run builds no archive and uploads none: its
    log holds no call of [ZipFiles], and no call of [UploadToS3] other
    than the one for [photo_metadata.json]; the ledger file is left as it
    was and no failure is counted.  This holds for every order in which
    the loop may take the groups, because a group whose month is in the
    ledger map is skipped before its goroutine is started. *)
Theorem C1_idempotent_resume :
  forall (order : gmap string (list string) -> list (string * list string))
         (cfg : photosbackup.Config) (env : Env) (w : backup.World),
    let lastUpload := GetLastUploadTime (backup.w_stamp w)
                        (photosbackup.LastUploadFile cfg) in
    let newPhotos :=
      fst (photosbackup.FindNewPhotos (backup.w_disk w)
             (photosbackup.PhotosLibrary cfg) lastUpload
             (photosbackup.AllowedExtensions cfg)) in
    let groups := photosbackup.GroupPhotosByYearMonth
                    (d_files (backup.w_disk w)) newPhotos in
    let loaded :=
      match fst (ledger.LoadUploadState (backup.w_ledger w) backup.statePath) with
      | Some u => ledger.CompletedMonths u
      | None => ∅
      end in
    let o := backup.main_with order cfg env w in
    (forall m ym fl, (ym, fl) ∈ order m -> is_Some (m !! ym)) ->
    (forall ym, is_Some (groups !! ym) -> is_Some (loaded !! ym)) ->
    forallb (fun e => negb (backup.is_archive_event e)) (backup.o_trace o) = true
    /\ backup.w_ledger (backup.o_world o) = backup.w_ledger w
    /\ backup.o_failedZips o = 0
    /\ backup.o_failedUploads o = 0
    /\ (forall fs sp ym fl rest s,
          is_Some (backup.uploadState s !! ym) ->
          backup.group_loop cfg env fs sp ((ym, fl) :: rest) s
          = backup.group_loop cfg env fs sp rest s).
Proof.
  intros order cfg env w lastUpload newPhotos groups loaded o Horder Hall.
  assert (Hscan : forallb (fun e => negb (backup.is_archive_event e))
                    (photosbackup.scan_log
                       (photosbackup.scan (backup.w_disk w)
                          (photosbackup.PhotosLibrary cfg) lastUpload
                          (photosbackup.AllowedExtensions cfg))) = true).
  { apply forallb_forall. intros e He.
    pose proof (scan_log_events (d_files (backup.w_disk w)) lastUpload
                  (photosbackup.allowed_of (photosbackup.AllowedExtensions cfg))
                  (WalkDir (photosbackup.PhotosLibrary cfg)
                     (d_tree (backup.w_disk w) (photosbackup.PhotosLibrary cfg)))
                  photosbackup.scan_init eq_refl) as Hs.
    rewrite forallb_forall in Hs. specialize (Hs e He).
    now rewrite (scan_event_not_archive e Hs). }
  assert (Ho : o = backup.main_with order cfg env w) by reflexivity.
  unfold backup.main_with in Ho. fold lastUpload in Ho.
  set (sc := photosbackup.scan (backup.w_disk w)
               (photosbackup.PhotosLibrary cfg) lastUpload
               (photosbackup.AllowedExtensions cfg)) in *.
  change (photosbackup.files sc) with newPhotos in Ho.
  fold groups in Ho. clearbody groups newPhotos sc.
  split; [|split; [|split; [|split]]];
    try (intros; now apply group_loop_skip).
  all: destruct (length newPhotos =? 0)%nat;
    [rewrite Ho; first [exact Hscan|reflexivity]|].
  all: unfold backup.bind in Ho; rewrite upload_metadata_run in Ho;
    unfold backup.load_state, backup.modify in Ho.
  all: destruct (e_create env backup.metaFile);
    cbn [fst snd backup.st_ledger backup.with_trace backup.with_puts
         backup.with_local backup.start] in Ho.
  all: unfold loaded in Hall;
    destruct (fst (ledger.LoadUploadState (backup.w_ledger w) backup.statePath)).
  all: rewrite group_loop_all_done in Ho
      by (intros ym fl Hin;
          cbn [backup.uploadState backup.with_uploadState];
          apply Hall; eapply Horder; exact Hin).
  all: cbn [snd] in Ho; rewrite Ho;
    cbn [backup.o_trace backup.o_world backup.o_failedZips
         backup.o_failedUploads backup.w_ledger backup.st_ledger
         backup.st_trace backup.failedZips backup.failedUploads
         backup.with_uploadState backup.with_trace backup.with_puts
         backup.with_local backup.start];
    try reflexivity.
  all: rewrite ?forallb_app, Hscan; reflexivity.
Qed.

Lemma C1_witness :
  forallb (fun e => negb (backup.is_archive_event e))
    (backup.o_trace
       (backup.main (sample.cfg "STANDARD") (sample.env_put_from 1)
          sample.world_done)) = true.
Proof.
  refine (proj1 (C1_idempotent_resume map_to_list (sample.cfg "STANDARD")
                   (sample.env_put_from 1) sample.world_done _ _)).
  - intros m ym fl H. apply elem_of_map_to_list in H. eauto.
  - intros ym Hs.
    match type of Hs with
    | is_Some (?g !! _) =>
        assert (G : g = {[ "2024-03" := ["lib/a.jpg"] ]})
          by (vm_compute; reflexivity);
        rewrite G in Hs
    end.
    destruct Hs as [x Hx]. apply lookup_singleton_Some in Hx as [<- _].
    vm_compute. eexists. reflexivity.
Defined.

(* --------------------------------------------------------------------- *)
(** ** C3: a failed group and the watermark                              *)
(* --------------------------------------------------------------------- *)

(** C3 (the code at the failing input). The library holds one picture,
    last modified in March 2024; the first run is on 1 January 2025 and
    every call of [PutObject] fails.  The run counts one failed upload and
    writes no ledger entry, yet it sets the watermark to its own time.  A
    week later, with a storage that works, the scan finds no new file:
    the picture is older than the watermark, and the second run builds
    and uploads nothing. *)
Theorem C3_failed_group_not_retried :
  let o1 := backup.main (sample.cfg "STANDARD") (sample.env_put_from 4)
              (sample.world sample.disk_one) in
  let w2 := sample.a_week_later (backup.o_world o1) in
  let o2 := backup.main (sample.cfg "STANDARD") (sample.env_put_from 1) w2 in
  backup.o_failedUploads o1 = 1
  /\ backup.w_ledger (backup.o_world o1) backup.statePath = ledger.Missing
  /\ backup.w_stamp (backup.o_world o1) "last_upload.txt"
     = Stamp (GoTime.Date 2025 1 1 2 0 6)
  /\ fst (photosbackup.FindNewPhotos (backup.w_disk w2) "lib"
            (GetLastUploadTime (backup.w_stamp w2) "last_upload.txt") [".jpg"])
     = []
  /\ backup.o_trace o2 = [EvGetPhotoMeta "lib/a.jpg"]
  /\ backup.w_ledger (backup.o_world o2) backup.statePath = ledger.Missing.
Proof. vm_compute. repeat split; reflexivity. Qed.

(* --------------------------------------------------------------------- *)
(** ** C2: the ledger and the locks                                      *)
(* --------------------------------------------------------------------- *)

Lemma ledger_unlocked_after (pre : list Event) (ym z : string)
    (rest : list Event) :
  Forall (fun e => sched.is_ledger_event e = false
                   /\ sched.held_after [] [e] = []) pre ->
  sched.ledger_locked [] (pre ++ EvLedgerStore ym z :: rest) = false.
Proof.
  induction 1 as [|e pre [He Hh] _ IH]; [reflexivity|].
  cbn [app sched.ledger_locked]. rewrite He, Hh. exact IH.
Qed.

Lemma verify_events_plain (cfg : photosbackup.Config) (key z : string)
    (l r : option string) :
  Forall (fun e => sched.is_ledger_event e = false
                   /\ sched.held_after [] [e] = [])
         (backup.verify_events cfg key z l r).
Proof.
  unfold backup.verify_events.
  destruct (_ || _); [repeat constructor|].
  destruct l as [a|]; [|repeat constructor].
  destruct r as [b|]; [|repeat constructor].
  destruct (String.eqb a b); repeat constructor.
Qed.

(** C2 (the code at the failing input). A goroutine that completes its
    group stores the month in the shared ledger map and saves the ledger
    while it holds neither [mu] nor [progressMu].  With two free slots of
    the semaphore, the goroutines of the two months of [sample.disk_dup]
    can therefore run so that the second one stores its month and saves
    the ledger between the store and the save of the first one. *)
Theorem C2_ledger_written_without_lock :
  (forall (cfg : photosbackup.Config) (env : Env) (sp ym key z : string)
          (s : backup.St),
     sched.ledger_locked []
       (drop (length (backup.st_trace s))
          (backup.st_trace (snd (backup.complete_group cfg env sp ym key z s))))
     = false)
  /\ exists schedule c,
       sched.run schedule
         (sched.init 2 [ sample.goroutine "2024-03" ["lib/a/x.jpg"];
                         sample.goroutine "2024-04" ["lib/b/y.JPG"] ])
       = Some c
       /\ sched.c_threads c = [ []; [] ]
       /\ sched.ledger_events (sched.c_log c)
          = [ (0%nat, EvLedgerStore "2024-03" "2024-03_20250101T020000.zip");
              (1%nat, EvLedgerStore "2024-04" "2024-04_20250101T020000.zip");
              (1%nat, EvSaveUploadState true);
              (0%nat, EvSaveUploadState true) ].
Proof.
  split.
  - intros cfg env sp ym key z s.
    rewrite complete_group_run. cbn [snd].
    cbn [backup.st_trace backup.with_trace backup.with_local].
    rewrite drop_app_length.
    apply ledger_unlocked_after, verify_events_plain.
  - exists (repeat 0%nat 10 ++ repeat 1%nat 11 ++ repeat 0%nat 6
            ++ repeat 1%nat 5).
    eexists. vm_compute. repeat split; reflexivity.
Qed.

(* --------------------------------------------------------------------- *)
(** ** More on the scan                                                  *)
(* --------------------------------------------------------------------- *)

Lemma allowed_fold (exts : list string) :
  forall (m : gmap string bool) (k : string),
    photosbackup.get_bool
      (fold_left (fun m ext => <[GoStr.ToLower ext := true]> m) exts m) k = true
    <-> photosbackup.get_bool m k = true
        \/ exists x, x ∈ exts /\ GoStr.ToLower x = k.
Proof.
  induction exts as [|e exts IH]; intros m k; cbn [fold_left].
  - split; [intros H; left; exact H|].
    intros [H|(x & Hx & _)]; [exact H|].
    exfalso. eapply not_elem_of_nil; exact Hx.
  - rewrite IH. unfold photosbackup.get_bool at 1. split.
    + intros [H|(x & Hx & Hk)].
      * destruct (decide (GoStr.ToLower e = k)) as [Heq|Hne].
        -- right. exists e. split; [apply list_elem_of_here|exact Heq].
        -- rewrite lookup_insert_ne in H by exact Hne. left. exact H.
      * right. exists x. split; [apply list_elem_of_further; exact Hx|exact Hk].
    + intros [H|(x & Hx & Hk)].
      * left. destruct (decide (GoStr.ToLower e = k)) as [Heq|Hne].
        -- subst k. rewrite lookup_insert_eq. reflexivity.
        -- rewrite lookup_insert_ne by exact Hne. exact H.
      * apply elem_of_cons in Hx as [Hx|Hx].
        -- left. subst x. rewrite Hk, lookup_insert_eq. reflexivity.
        -- right. exists x. split; [exact Hx|exact Hk].
Qed.

Lemma allowed_of_spec (exts : list string) (k : string) :
  photosbackup.get_bool (photosbackup.allowed_of exts) k = true
  <-> exists x, x ∈ exts /\ GoStr.ToLower x = k.
Proof.
  unfold photosbackup.allowed_of. rewrite allowed_fold.
  unfold photosbackup.get_bool at 1. rewrite lookup_empty. cbn.
  split; [intros [H|H]; [discriminate|exact H]|intros H; right; exact H].
Qed.

(** X1. The extension test of the scan ignores case on both sides and is
    otherwise exact: a non-directory entry is passed to [getPhotoMeta]
    iff the lower-cased extension of its path equals the lower-cased form
    of some configured extension; otherwise it is counted under its
    lower-cased extension and [getPhotoMeta] is not called. *)
Theorem X1_extension_match_case_insensitive :
  forall (fs : FS) (since : GoTime.Time) (allowedExts : list string)
         (st : photosbackup.ScanState) (v : Visit),
    v_err v = false -> v_isDir v = false ->
    let st' := photosbackup.visit fs since
                 (photosbackup.allowed_of allowedExts) st v in
    let ext := GoStr.ToLower (GoStr.Ext (v_path v)) in
    ((exists x, x ∈ allowedExts /\ GoStr.ToLower x = ext) ->
     photosbackup.excluded st' = photosbackup.excluded st
     /\ scanspec.resolved (photosbackup.scan_log st')
        = scanspec.resolved (photosbackup.scan_log st) ++ [v_path v])
    /\ ((forall x, x ∈ allowedExts -> GoStr.ToLower x <> ext) ->
        photosbackup.files st' = photosbackup.files st
        /\ photosbackup.scan_log st' = photosbackup.scan_log st
        /\ photosbackup.get_int (photosbackup.excluded st') ext
           = int_incr (photosbackup.get_int (photosbackup.excluded st) ext)).
Proof.
  intros fs since allowedExts st v He Hd st' ext.
  assert (Hentry : scanspec.is_entry v = true).
  { unfold scanspec.is_entry. now rewrite He, Hd. }
  split.
  - intros Hx. apply allowed_of_spec in Hx.
    assert (Hal : scanspec.is_allowed (photosbackup.allowed_of allowedExts) v
                  = true).
    { unfold scanspec.is_allowed. rewrite Hentry. exact Hx. }
    unfold st'. rewrite visit_cases, Hal. cbv zeta.
    destruct (scanspec.passes fs since (v_path v));
      [destruct (negb _)|];
      cbn [photosbackup.excluded photosbackup.scan_log];
      rewrite ?resolved_app; cbn [scanspec.resolved omap list_omap];
      rewrite ?app_nil_r; split; reflexivity.
  - intros Hx.
    assert (Hno : photosbackup.get_bool (photosbackup.allowed_of allowedExts)
                    (scanspec.ext_of v) = false).
    { destruct (photosbackup.get_bool _ _) eqn:E; [|reflexivity].
      apply allowed_of_spec in E as (x & Hin & Hk).
      exfalso. exact (Hx x Hin Hk). }
    unfold st'. rewrite visit_cases.
    unfold scanspec.is_allowed, scanspec.is_excluded. rewrite Hentry, Hno.
    cbn [andb negb photosbackup.files photosbackup.scan_log
         photosbackup.excluded].
    split; [reflexivity|]. split; [reflexivity|].
    unfold photosbackup.get_int at 1. fold ext.
    unfold scanspec.ext_of. fold ext. rewrite lookup_insert_eq. reflexivity.
Qed.

Lemma X1_witness :
  scanspec.resolved
    (photosbackup.scan_log
       (photosbackup.visit (d_files sample.disk_dup) GoTime.zero
          (photosbackup.allowed_of [".Jpg"]) photosbackup.scan_init
          {| v_path := "lib/b/y.JPG"; v_isDir := false; v_err := false |}))
  = ["lib/b/y.JPG"].
Proof.
  refine (proj2 (proj1 (X1_extension_match_case_insensitive
            (d_files sample.disk_dup) GoTime.zero [".Jpg"]
            photosbackup.scan_init
            {| v_path := "lib/b/y.JPG"; v_isDir := false; v_err := false |}
            eq_refl eq_refl) _)).
  exists ".Jpg". split; [apply list_elem_of_here|vm_compute; reflexivity].
Defined.

Lemma filter_false_nil {A} (f : A -> bool) (l : list A) :
  (forall x, f x = false) -> List.filter f l = [].
Proof.
  intros H. induction l as [|a l IH]; cbn [List.filter]; [reflexivity|].
  now rewrite H.
Qed.

Lemma filter_ext_eq {A} (f g : A -> bool) (l : list A) :
  (forall x, f x = g x) -> List.filter f l = List.filter g l.
Proof.
  intros H. induction l as [|a l IH]; cbn [List.filter]; [reflexivity|].
  now rewrite H, IH.
Qed.

(** X2. With an empty list of allowed extensions the scan returns no file
    and never calls [getPhotoMeta]; every non-directory entry that the
    walk hands over without error is counted as excluded. *)
Theorem X2_empty_allow_list :
  forall (d : Disk) (root : string) (since : GoTime.Time),
    let vs := WalkDir root (d_tree d root) in
    let sc := photosbackup.scan d root since [] in
    Z.of_nat (length (List.filter scanspec.is_entry vs)) < 2 ^ 63 ->
    photosbackup.files sc = []
    /\ scanspec.resolved (photosbackup.scan_log sc) = []
    /\ scanspec.total (photosbackup.excluded sc)
       = Z.of_nat (length (List.filter scanspec.is_entry vs)).
Proof.
  intros d root since vs sc HN.
  assert (Hal : forall v, scanspec.is_allowed (photosbackup.allowed_of []) v
                          = false).
  { intros v. unfold scanspec.is_allowed, photosbackup.allowed_of,
      photosbackup.get_bool. cbn [fold_left]. rewrite lookup_empty.
    cbn. apply andb_false_r. }
  assert (Hex : forall v, scanspec.is_excluded (photosbackup.allowed_of []) v
                          = scanspec.is_entry v).
  { intros v. unfold scanspec.is_excluded, photosbackup.allowed_of,
      photosbackup.get_bool. cbn [fold_left]. rewrite lookup_empty.
    cbn. apply andb_true_r. }
  destruct (scan_fold (d_files d) since (photosbackup.allowed_of []) vs
              photosbackup.scan_init ∅ seen_is_init) as (Hf & _ & Hr).
  destruct (scan_excluded (d_files d) since (photosbackup.allowed_of []) vs
              photosbackup.scan_init) as (_ & Ht & _).
  { intros k x Hk. cbn in Hk. now rewrite lookup_empty in Hk. }
  { cbn [photosbackup.excluded photosbackup.scan_init].
    rewrite total_empty, (filter_ext_eq _ _ vs Hex). lia. }
  cbn [photosbackup.files photosbackup.scan_log photosbackup.excluded
       photosbackup.scan_init] in Hf, Hr, Ht.
  rewrite total_empty, (filter_ext_eq _ _ vs Hex) in Ht.
  unfold scanspec.eligible_paths in Hf.
  rewrite (filter_false_nil _ vs) in Hf.
  2:{ intros v. unfold scanspec.is_eligible. now rewrite Hal. }
  rewrite (filter_false_nil _ vs Hal) in Hr.
  split; [exact Hf|]. split; [exact Hr|]. exact Ht.
Qed.

Lemma X2_witness :
  photosbackup.files (photosbackup.scan sample.disk_dup "lib" GoTime.zero [])
  = [].
Proof.
  refine (proj1 (X2_empty_allow_list sample.disk_dup "lib" GoTime.zero _)).
  vm_compute. reflexivity.
Defined.

Lemma filter_sublist {A} (f : A -> bool) (l : list A) :
  List.filter f l `sublist_of` l.
Proof.
  induction l as [|a l IH]; cbn [List.filter]; [constructor|].
  destruct (f a); [now apply sublist_skip|now apply sublist_cons].
Qed.

Lemma first_by_key_sublist (key : string -> string) (l : list string) :
  forall S, scanspec.first_by_key key S l `sublist_of` l.
Proof.
  induction l as [|a l IH]; intros S; cbn [scanspec.first_by_key];
    [constructor|].
  case_bool_decide as Hk; [apply sublist_cons|apply sublist_skip]; apply IH.
Qed.

(** X3. Whatever the scan returns comes from the walk: every returned
    path is the path of a non-directory entry, handed over without error,
    whose extension is allowed, which [getPhotoMeta] resolves without
    error, and whose timestamp is strictly after [since]; and the
    returned paths keep the order of the walk. *)
Theorem X3_scan_sound :
  forall (d : Disk) (root : string) (since : GoTime.Time)
         (allowedExts : list string),
    let vs := WalkDir root (d_tree d root) in
    let result := fst (photosbackup.FindNewPhotos d root since allowedExts) in
    result `sublist_of` (v_path <$> vs)
    /\ forall p, p ∈ result ->
         exists v meta,
           v ∈ vs /\ v_path v = p /\ v_err v = false /\ v_isDir v = false
           /\ (exists x, x ∈ allowedExts
                         /\ GoStr.ToLower x = GoStr.ToLower (GoStr.Ext p))
           /\ photosbackup.getPhotoMeta (d_files d) p = (meta, None)
           /\ since < photosbackup.Taken meta.
Proof.
  intros d root since allowedExts vs result.
  destruct (scan_fold (d_files d) since (photosbackup.allowed_of allowedExts)
              vs photosbackup.scan_init ∅ seen_is_init) as (Hf & _ & _).
  cbn [photosbackup.files photosbackup.scan_init app] in Hf.
  assert (Hres : result
                 = scanspec.first_by_key (scanspec.key_of (d_files d)) ∅
                     (scanspec.eligible_paths (d_files d) since
                        (photosbackup.allowed_of allowedExts) vs))
    by exact Hf.
  split.
  - rewrite Hres. etransitivity; [apply first_by_key_sublist|].
    unfold scanspec.eligible_paths. apply fmap_sublist, filter_sublist.
  - intros p Hp. rewrite Hres in Hp. apply first_by_key_subset in Hp.
    unfold scanspec.eligible_paths in Hp.
    apply list_elem_of_fmap in Hp as (v & -> & Hv).
    apply list_elem_of_In, filter_In in Hv as [Hin Hel].
    apply list_elem_of_In in Hin.
    unfold scanspec.is_eligible in Hel.
    apply andb_true_iff in Hel as [Hal Hpass].
    unfold scanspec.is_allowed in Hal. apply andb_true_iff in Hal as [He Hal].
    unfold scanspec.is_entry in He. apply andb_true_iff in He as [He1 He2].
    apply negb_true_iff in He1, He2.
    apply allowed_of_spec in Hal.
    pose proof (passes_resolves _ _ _ Hpass) as Hnil.
    destruct (photosbackup.getPhotoMeta (d_files d) (v_path v))
      as [meta err] eqn:Hm.
    cbn [snd] in Hnil. subst err.
    exists v, meta. repeat split; try assumption.
    eapply passes_iff; eauto.
Qed.

(* --------------------------------------------------------------------- *)
(** ** The watermark file                                                *)
(* --------------------------------------------------------------------- *)





(* --------------------------------------------------------------------- *)
(** ** Every path through the goroutine                                   *)
(* --------------------------------------------------------------------- *)

Section Goroutine.

Import photosbackup backup tracespec.

Lemma held_after_app (a b : list Event) :
  forall held,
    sched.held_after held (a ++ b) = sched.held_after (sched.held_after held a) b.
Proof.
  induction a as [|e a IH]; intros held; [reflexivity|].
  destruct e; cbn [app sched.held_after]; apply IH.
Qed.

Lemma quiet_app (a b : list Event) : quiet a -> quiet b -> quiet (a ++ b).
Proof.
  intros [Ha1 Ha2] [Hb1 Hb2]. split.
  - now rewrite held_after_app, Ha1, Hb1.
  - apply Forall_app. split; assumption.
Qed.

Lemma quiet_cons (e : Event) (r : list Event) :
  quiet [e] -> quiet r -> quiet (e :: r).
Proof. intros He Hr. change (e :: r) with ([e] ++ r). now apply quiet_app. Qed.

Lemma quiet_progress (l : list string) : quiet (progress_events l).
Proof.
  induction l as [|f l IH]; [split; [reflexivity|constructor]|].
  cbn [progress_events].
  change (EvLock ProgressMu :: EvUpdateBar :: EvUnlock ProgressMu
            :: progress_events l)
    with ([EvLock ProgressMu; EvUpdateBar; EvUnlock ProgressMu]
            ++ progress_events l).
  apply quiet_app; [|exact IH].
  split; [reflexivity|repeat constructor].
Qed.

Lemma quiet_verify (cfg : Config) (key z : string) (a b : option string) :
  quiet (verify_events cfg key z a b).
Proof.
  unfold verify_events.
  destruct (_ || _); [split; [reflexivity|repeat constructor]|].
  destruct a as [x|]; [|split; [reflexivity|repeat constructor]].
  destruct b as [y|]; [|split; [reflexivity|repeat constructor]].
  destruct (String.eqb x y); split; try reflexivity; repeat constructor.
Qed.

Lemma no_put_progress (l : list string) :
  Forall (fun e => is_put e = false) (progress_events l).
Proof. induction l; cbn [progress_events]; repeat constructor; assumption. Qed.

Variable cfg : Config.
Variable env : Env.
Variable fs : FS.

(** What the body of the goroutine leaves behind, on each of its paths. *)
Lemma worker_body_outcome (sp ym : string) (l : list string) (s : St) :
  let z := zip_name ym (st_clock s) in
  let s' := snd (worker_body cfg env fs sp ym l s) in
  let ev := new_events s s' in
  st_trace s' = st_trace s ++ ev
  /\ quiet ev
  /\ ((uploadState s' = <[ym := z]> (uploadState s)
       /\ failedZips s' = failedZips s /\ failedUploads s' = failedUploads s
       /\ (z ∉ st_local s')
       /\ st_ledger s'
          = fst (ledger.SaveUploadState
                   (e_save env (<[ym := z]> (uploadState s))) (st_ledger s) sp
                   {| ledger.CompletedMonths := <[ym := z]> (uploadState s) |}))
      \/ (uploadState s' = uploadState s /\ st_ledger s' = st_ledger s
          /\ failedZips s' = int_incr (failedZips s)
          /\ failedUploads s' = failedUploads s
          /\ st_puts s' = st_puts s
          /\ Forall (fun e => is_put e = false) ev)
      \/ (uploadState s' = uploadState s /\ st_ledger s' = st_ledger s
          /\ failedZips s' = failedZips s
          /\ failedUploads s' = int_incr (failedUploads s)
          /\ z ∈ st_local s')).
Proof.
  intros z s' ev. unfold ev, new_events, s'. clear ev s'.
  rewrite worker_body_run. fold z.
  set (key := key_for cfg ym z).
  assert (Hin : z ∈ st_local (before_upload s z l)).
  { unfold before_upload. cbn [st_local with_trace with_fileProgress with_local].
    set_solver. }
  destruct (e_create env z).
  - destruct (addFiles env fs z l) as [e|].
    + cbn [snd st_trace with_trace]. rewrite drop_app_length.
      split; [reflexivity|]. split; [split; [reflexivity|repeat constructor]|].
      right. left. cbn. repeat split; repeat constructor.
    + cbv zeta. rewrite (upload_loop_run env key z _ Hin).
      destruct (e_put env key _); [|destruct (e_put env key _);
        [|destruct (e_put env key _)]]; cbn [fst snd is_nil].
      4:{ cbn [st_trace with_trace with_failedUploads loop_state with_clock
               with_puts before_upload with_fileProgress with_local].
          rewrite <- !app_assoc, drop_app_length.
          split; [reflexivity|]. split.
          { change (EvZipFiles z l true :: progress_events l)
              with ([EvZipFiles z l true] ++ progress_events l).
            rewrite <- app_assoc.
            repeat apply quiet_app; try apply quiet_progress;
              split; try reflexivity; repeat constructor. }
          right. right. cbn. repeat split. set_solver. }
      all: rewrite complete_group_run; cbn [snd];
        cbn [st_trace st_local uploadState failedZips failedUploads st_ledger
             with_trace with_local with_ledger with_uploadState loop_state
             with_clock with_puts before_upload with_fileProgress];
        rewrite <- !app_assoc, drop_app_length;
        (split; [reflexivity|]); split.
      all: try (left; repeat split; try reflexivity; set_solver).
      all: change (EvZipFiles z l true :: progress_events l)
              with ([EvZipFiles z l true] ++ progress_events l);
           rewrite <- ?app_assoc;
           repeat apply quiet_app;
           try apply quiet_progress; try apply quiet_verify;
           split; try reflexivity; repeat constructor.
  - cbn [snd st_trace with_trace with_failedZips]. rewrite drop_app_length.
    split; [reflexivity|]. split; [split; [reflexivity|repeat constructor]|].
    right. left. cbn. repeat split; repeat constructor.
Qed.

(** The goroutine: a slot is taken first and given back last. *)
Lemma worker_run (sp ym : string) (l : list string) (s : St) :
  let sb := snd (worker_body cfg env fs sp ym l
                   (with_trace (st_trace s ++ [EvSemAcquire]) s)) in
  worker cfg env fs sp ym l s
  = (tt, with_trace (st_trace sb ++ [EvSemRelease]) sb).
Proof.
  intros sb. unfold worker, bind. rewrite emit_run.
  unfold sb. destruct (worker_body _ _ _ _ _ _ _) as [[] s1].
  rewrite emit_run. reflexivity.
Qed.

Lemma worker_outcome (sp ym : string) (l : list string) (s : St) :
  let z := zip_name ym (st_clock s) in
  let s' := snd (worker cfg env fs sp ym l s) in
  exists body,
    st_trace s' = st_trace s ++ EvSemAcquire :: body ++ [EvSemRelease]
    /\ quiet body
    /\ ((uploadState s' = <[ym := z]> (uploadState s)
         /\ failedZips s' = failedZips s /\ failedUploads s' = failedUploads s
         /\ (z ∉ st_local s')
         /\ st_ledger s'
            = fst (ledger.SaveUploadState
                     (e_save env (<[ym := z]> (uploadState s))) (st_ledger s) sp
                     {| ledger.CompletedMonths := <[ym := z]> (uploadState s) |}))
        \/ (uploadState s' = uploadState s /\ st_ledger s' = st_ledger s
            /\ failedZips s' = int_incr (failedZips s)
            /\ failedUploads s' = failedUploads s
            /\ st_puts s' = st_puts s
            /\ Forall (fun e => is_put e = false) body)
        \/ (uploadState s' = uploadState s /\ st_ledger s' = st_ledger s
            /\ failedZips s' = failedZips s
            /\ failedUploads s' = int_incr (failedUploads s)
            /\ z ∈ st_local s')).
Proof.
  intros z s'. unfold s'. rewrite worker_run. cbn [snd].
  set (s0 := with_trace (st_trace s ++ [EvSemAcquire]) s).
  destruct (worker_body_outcome sp ym l s0) as (Ht & Hq & Hcases).
  cbv zeta in Ht, Hq, Hcases.
  change (st_clock s0) with (st_clock s) in Hcases.
  set (sb := snd (worker_body cfg env fs sp ym l s0)) in *.
  exists (new_events s0 sb).
  cbn [st_trace st_local uploadState failedZips failedUploads st_ledger
       st_puts with_trace].
  split.
  { rewrite Ht. unfold s0 at 1. cbn [st_trace with_trace].
    rewrite <- !app_assoc. reflexivity. }
  split; [exact Hq|exact Hcases].
Qed.

End Goroutine.

(** X6. When the archive of a group cannot be built -- [os.Create] fails,
    or a member cannot be added -- the goroutine logs the error, adds one
    to [failedZips] under [mu] and returns: no upload is attempted, the
    ledger map and file are untouched, and the build is not retried.  If
    the archive file had been created it is left in the working
    directory. *)
Theorem X6_failed_build_is_terminal :
  forall (cfg : photosbackup.Config) (env : Env) (fs : FS) (sp ym : string)
         (l : list string) (s : backup.St),
    let z := backup.zip_name ym (backup.st_clock s) in
    let s' := snd (backup.worker_body cfg env fs sp ym l s) in
    e_create env z = false \/ backup.addFiles env fs z l <> None ->
    tracespec.new_events s s'
    = [EvZipFiles z l false; EvErrorZip z; EvLock Mu; EvUnlock Mu]
    /\ backup.failedZips s' = int_incr (backup.failedZips s)
    /\ backup.failedUploads s' = backup.failedUploads s
    /\ backup.uploadState s' = backup.uploadState s
    /\ backup.st_ledger s' = backup.st_ledger s
    /\ backup.st_puts s' = backup.st_puts s
    /\ backup.st_local s'
       = (if e_create env z then {[z]} ∪ backup.st_local s
          else backup.st_local s).
Proof.
  intros cfg env fs sp ym l s z s' H.
  unfold s', tracespec.new_events. rewrite worker_body_run. fold z.
  destruct (e_create env z).
  - destruct H as [H|H]; [discriminate|].
    destruct (backup.addFiles env fs z l) as [e|]; [|congruence].
    cbn [snd backup.st_trace backup.with_trace]. rewrite drop_app_length.
    repeat split.
  - cbn [snd backup.st_trace backup.with_trace]. rewrite drop_app_length.
    repeat split.
Qed.

Lemma X6_witness :
  backup.failedZips
    (snd (backup.worker_body (sample.cfg "STANDARD") (sample.env_put_from 1)
            (d_files sample.disk_locked) backup.statePath "2024-03"
            ["lib/a.jpg"] (backup.start (sample.world sample.disk_locked) [])))
  = 1.
Proof.
  refine (proj1 (proj2 (X6_failed_build_is_terminal (sample.cfg "STANDARD")
            (sample.env_put_from 1) (d_files sample.disk_locked)
            backup.statePath "2024-03" ["lib/a.jpg"]
            (backup.start (sample.world sample.disk_locked) []) _))).
  right. vm_compute. discriminate.
Defined.

(** X7. On every path the goroutine of a group takes a slot of the
    semaphore as its first step and gives it back as its last one; in
    between it takes no other slot, and every mutex it locks it unlocks
    again before it ends. *)
Theorem X7_goroutine_releases_what_it_takes :
  forall (cfg : photosbackup.Config) (env : Env) (fs : FS) (sp ym : string)
         (l : list string) (s : backup.St),
    let s' := snd (backup.worker cfg env fs sp ym l s) in
    exists body,
      backup.st_trace s'
      = backup.st_trace s ++ EvSemAcquire :: body ++ [EvSemRelease]
      /\ sched.held_after [] body = []
      /\ Forall (fun e => tracespec.is_sem e = false) body.
Proof.
  intros cfg env fs sp ym l s s'.
  destruct (worker_outcome cfg env fs sp ym l s) as (body & Ht & [Hh Hs] & _).
  exists body. auto.
Qed.

(** X8. A goroutine that runs on its own for a month that the ledger map
    does not hold ends in exactly one of three ways: the month is entered
    in the map under the archive name and the archive is removed; or the
    build failed, [failedZips] is one more and no upload was made; or the
    upload failed, [failedUploads] is one more and the archive is left in
    the working directory.  It never removes or changes the entry of
    another month.  As long as the counters do not overflow, the growth
    of the map plus the growth of the two counters is one. *)
Theorem X8_goroutine_ends_in_one_of_three_ways :
  forall (cfg : photosbackup.Config) (env : Env) (fs : FS) (sp ym : string)
         (l : list string) (s : backup.St),
    backup.uploadState s !! ym = None ->
    let z := backup.zip_name ym (backup.st_clock s) in
    let s' := snd (backup.worker cfg env fs sp ym l s) in
    ((backup.uploadState s' = <[ym := z]> (backup.uploadState s)
      /\ backup.failedZips s' = backup.failedZips s
      /\ backup.failedUploads s' = backup.failedUploads s
      /\ (z ∉ backup.st_local s'))
     \/ (backup.uploadState s' = backup.uploadState s
         /\ backup.st_ledger s' = backup.st_ledger s
         /\ backup.failedZips s' = int_incr (backup.failedZips s)
         /\ backup.failedUploads s' = backup.failedUploads s
         /\ backup.st_puts s' = backup.st_puts s)
     \/ (backup.uploadState s' = backup.uploadState s
         /\ backup.st_ledger s' = backup.st_ledger s
         /\ backup.failedZips s' = backup.failedZips s
         /\ backup.failedUploads s' = int_incr (backup.failedUploads s)
         /\ z ∈ backup.st_local s'))
    /\ backup.uploadState s ⊆ backup.uploadState s'
    /\ (forall other, other <> ym ->
          backup.uploadState s' !! other = backup.uploadState s !! other)
    /\ (0 <= backup.failedZips s < 2 ^ 63 - 1 ->
        0 <= backup.failedUploads s < 2 ^ 63 - 1 ->
        Z.of_nat (size (backup.uploadState s'))
          - Z.of_nat (size (backup.uploadState s))
          + (backup.failedZips s' - backup.failedZips s)
          + (backup.failedUploads s' - backup.failedUploads s) = 1).
Proof.
  intros cfg env fs sp ym l s Hym z s'.
  destruct (worker_outcome cfg env fs sp ym l s) as (body & _ & _ & Hcases).
  cbv zeta in Hcases. fold z s' in Hcases.
  destruct Hcases as [(E1 & E2 & E3 & E4 & _)
                     |[(E1 & E0 & E2 & E3 & E4 & _)|(E1 & E0 & E2 & E3 & E4)]].
  - split; [left; auto|]. rewrite E1, E2, E3.
    split; [now apply insert_subseteq|]. split.
    + intros other Hne. now rewrite lookup_insert_ne.
    + intros _ _. rewrite map_size_insert_None by exact Hym. lia.
  - split; [right; left; auto|]. rewrite E1, E2, E3.
    split; [reflexivity|]. split; [reflexivity|].
    intros Hz _. rewrite int_incr_small by lia. lia.
  - split; [right; right; auto|]. rewrite E1, E2, E3.
    split; [reflexivity|]. split; [reflexivity|].
    intros _ Hu. rewrite int_incr_small by lia. lia.
Qed.

(** With every upload failing the ledger map is left as it was. *)
Lemma X8_witness :
  backup.uploadState (backup.start (sample.world sample.disk_one) [])
  ⊆ backup.uploadState
      (snd (backup.worker (sample.cfg "STANDARD") (sample.env_put_from 4)
              (d_files sample.disk_one) backup.statePath "2024-03"
              ["lib/a.jpg"] (backup.start (sample.world sample.disk_one) []))).
Proof.
  refine (proj1 (proj2 (X8_goroutine_ends_in_one_of_three_ways
            (sample.cfg "STANDARD") (sample.env_put_from 4)
            (d_files sample.disk_one) backup.statePath "2024-03"
            ["lib/a.jpg"] (backup.start (sample.world sample.disk_one) []) _))).
  reflexivity.
Defined.

(** X9. The result of [SaveUploadState] is dropped: when a goroutine,
    run on its own, has entered its month in the ledger map, no failure
    counter moves whatever became of the save.  After a successful save
    loading the file gives the map back, so the next run skips the month;
    when the file could not be created it is left as it was, without the
    month; when writing failed it loads as an empty ledger. *)
Theorem X9_completed_month_survives_iff_saved :
  forall (cfg : photosbackup.Config) (env : Env) (fs : FS) (sp ym : string)
         (l : list string) (s : backup.St),
    backup.uploadState s !! ym = None ->
    let s' := snd (backup.worker cfg env fs sp ym l s) in
    is_Some (backup.uploadState s' !! ym) ->
    backup.failedZips s' = backup.failedZips s
    /\ backup.failedUploads s' = backup.failedUploads s
    /\ match e_save env (backup.uploadState s') with
       | ledger.SaveOk =>
           ledger.LoadUploadState (backup.st_ledger s') sp
           = (Some {| ledger.CompletedMonths := backup.uploadState s' |}, None)
       | ledger.CreateFails => backup.st_ledger s' = backup.st_ledger s
       | ledger.EncodeFails =>
           ledger.LoadUploadState (backup.st_ledger s') sp
           = (Some {| ledger.CompletedMonths := ∅ |}, None)
       end.
Proof.
  intros cfg env fs sp ym l s Hym s' Hdone.
  destruct (worker_outcome cfg env fs sp ym l s) as (body & _ & _ & Hcases).
  cbv zeta in Hcases. fold s' in Hcases.
  destruct Hcases as [(E1 & E2 & E3 & _ & E4)
                     |[(E1 & _)|(E1 & _)]].
  - split; [exact E2|]. split; [exact E3|].
    rewrite E4, E1.
    destruct (e_save env _); cbn [ledger.SaveUploadState fst];
      unfold ledger.LoadUploadState; rewrite ?String.eqb_refl; reflexivity.
  - rewrite E1, Hym in Hdone. now apply is_Some_None in Hdone.
  - rewrite E1, Hym in Hdone. now apply is_Some_None in Hdone.
Qed.

(** After a completed group and a successful save the file loads as the map. *)
Lemma X9_witness :
  ledger.LoadUploadState
    (backup.st_ledger
       (snd (backup.worker (sample.cfg "STANDARD") (sample.env_put_from 1)
               (d_files sample.disk_one) backup.statePath "2024-03"
               ["lib/a.jpg"] (backup.start (sample.world sample.disk_one) []))))
    backup.statePath
  = (Some {| ledger.CompletedMonths :=
               backup.uploadState
                 (snd (backup.worker (sample.cfg "STANDARD") (sample.env_put_from 1)
                         (d_files sample.disk_one) backup.statePath "2024-03"
                         ["lib/a.jpg"]
                         (backup.start (sample.world sample.disk_one) []))) |},
     None).
Proof.
  refine (proj2 (proj2 (X9_completed_month_survives_iff_saved
            (sample.cfg "STANDARD") (sample.env_put_from 1)
            (d_files sample.disk_one) backup.statePath "2024-03"
            ["lib/a.jpg"] (backup.start (sample.world sample.disk_one) [])
            _ _))).
  - reflexivity.
  - vm_compute. eauto.
Defined.

(* --------------------------------------------------------------------- *)
(** ** Building the archive                                              *)
(* --------------------------------------------------------------------- *)

Lemma addFileToZip_ok (env : Env) (fs : FS) (z f : string) :
  backup.addFileToZip env fs z f = None
  <-> exists fi, fs !! f = Some fi /\ fi_open fi = true
                 /\ e_zip_entry env z f = true /\ fi_copy fi = true.
Proof.
  unfold backup.addFileToZip. destruct (fs !! f) as [fi|].
  - destruct (fi_open fi) eqn:Ho, (e_zip_entry env z f) eqn:He,
      (fi_copy fi) eqn:Hc; cbn [negb]; split;
      try discriminate; try (intros (x & Hx & H1 & H2 & H3);
                             inversion Hx; subst x; congruence).
    intros _. exists fi. auto.
  - split; [discriminate|]. intros (x & Hx & _). discriminate.
Qed.

Lemma addFiles_ok (env : Env) (fs : FS) (z : string) (l : list string) :
  backup.addFiles env fs z l = None
  <-> forall f, f ∈ l -> backup.addFileToZip env fs z f = None.
Proof.
  induction l as [|a l IH]; cbn [backup.addFiles].
  - split; [intros _ f Hf; now apply elem_of_nil in Hf|reflexivity].
  - destruct (backup.addFileToZip env fs z a) as [e|] eqn:Ea.
    + split; [discriminate|]. intros H.
      specialize (H a (list_elem_of_here _ _)). congruence.
    + rewrite IH. split.
      * intros H f Hf. apply elem_of_cons in Hf as [->|Hf]; [exact Ea|].
        now apply H.
      * intros H f Hf. apply H. now apply list_elem_of_further.
Qed.

(** X10. [ZipFiles] succeeds exactly when the archive file can be created
    and every member can be opened, entered in the archive and copied; an
    empty group needs only the file.  It stops at the first member that
    fails and returns that error.  Whenever the file was created it
    exists afterwards, also when the build failed. *)
Theorem X10_ZipFiles_succeeds_iff :
  forall (env : Env) (fs : FS) (z : string) (l : list string) (s : backup.St),
    (fst (backup.ZipFiles env fs z l s) = None
     <-> e_create env z = true
         /\ forall f, f ∈ l ->
              exists fi, fs !! f = Some fi /\ fi_open fi = true
                         /\ e_zip_entry env z f = true /\ fi_copy fi = true)
    /\ (forall good f rest e,
          l = good ++ f :: rest ->
          e_create env z = true ->
          (forall g, g ∈ good -> backup.addFileToZip env fs z g = None) ->
          backup.addFileToZip env fs z f = Some e ->
          fst (backup.ZipFiles env fs z l s) = Some e)
    /\ backup.st_local (snd (backup.ZipFiles env fs z l s))
       = (if e_create env z then {[z]} ∪ backup.st_local s
          else backup.st_local s).
Proof.
  intros env fs z l s. rewrite ZipFiles_run.
  split; [|split].
  - destruct (e_create env z); cbn [fst].
    + rewrite addFiles_ok. split.
      * intros H. split; [reflexivity|]. intros f Hf.
        apply addFileToZip_ok, H, Hf.
      * intros [_ H] f Hf. apply addFileToZip_ok, H, Hf.
    + split; [discriminate|]. intros [H _]. discriminate.
  - intros good f rest e -> Hc Hgood Hf. rewrite Hc. cbn [fst].
    induction good as [|g good IH]; cbn [app backup.addFiles].
    + now rewrite Hf.
    + rewrite (Hgood g (list_elem_of_here _ _)). apply IH.
      intros x Hx. apply Hgood. now apply list_elem_of_further.
  - destruct (e_create env z); reflexivity.
Qed.

Lemma X10_witness :
  fst (backup.ZipFiles (sample.env_put_from 1) (d_files sample.disk_locked)
         "z.zip" ["lib/a.jpg"] (backup.start (sample.world sample.disk_locked) []))
  = Some "open: permission denied".
Proof.
  refine (proj1 (proj2 (X10_ZipFiles_succeeds_iff (sample.env_put_from 1)
            (d_files sample.disk_locked) "z.zip" ["lib/a.jpg"]
            (backup.start (sample.world sample.disk_locked) [])))
            [] "lib/a.jpg" [] "open: permission denied" eq_refl eq_refl _ _).
  - intros g Hg. now apply elem_of_nil in Hg.
  - vm_compute. reflexivity.
Defined.

(* --------------------------------------------------------------------- *)
(** ** The semaphore                                                     *)
(* --------------------------------------------------------------------- *)

(** X11. With [max_concurrent_uploads] equal to zero (the value the
    configuration has when the setting is absent) the semaphore is an
    unbuffered channel on which nobody receives: in no state reached from
    the start can a goroutine take its first step, so the run never gets
    past [wg.Wait]. *)
Theorem X11_zero_slots_block_every_goroutine :
  forall (cfg : photosbackup.Config) (env : Env) (fs : FS) (sp : string)
         (starts : list (string * list string * backup.St)) (i : nat),
    let goroutines :=
      (fun g : string * list string * backup.St =>
         let '(ym, l, s) := g in
         tracespec.new_events s (snd (backup.worker cfg env fs sp ym l s)))
      <$> starts in
    sched.step i (sched.init 0 goroutines) = None
    /\ forall schedule, schedule <> [] ->
         sched.run schedule (sched.init 0 goroutines) = None.
Proof.
  intros cfg env fs sp starts i goroutines.
  assert (Hstep : forall j, sched.step j (sched.init 0 goroutines) = None).
  { intros j. unfold sched.step, sched.init. cbn [sched.c_threads].
    destruct (goroutines !! j) as [t|] eqn:Ht; [|reflexivity].
    unfold goroutines in Ht. rewrite list_lookup_fmap in Ht.
    destruct (starts !! j) as [[[ym l] s]|]; [|discriminate].
    cbn [fmap option_fmap option_map] in Ht. injection Ht as <-.
    destruct (worker_outcome cfg env fs sp ym l s) as (body & Htr & _).
    cbv zeta in Htr. unfold tracespec.new_events.
    rewrite Htr, drop_app_length. reflexivity. }
  split; [apply Hstep|].
  intros [|j r] Hne; [congruence|].
  cbn [sched.run]. now rewrite Hstep.
Qed.

Lemma X11_witness :
  sched.run [0%nat]
    (sched.init 0
       ((fun g : string * list string * backup.St =>
           let '(ym, l, s) := g in
           tracespec.new_events s
             (snd (backup.worker (sample.cfg "STANDARD") (sample.env_put_from 1)
                     (d_files sample.disk_one) backup.statePath ym l s)))
        <$> [("2024-03", ["lib/a.jpg"],
              backup.start (sample.world sample.disk_one) [])]))
  = None.
Proof.
  refine (proj2 (X11_zero_slots_block_every_goroutine (sample.cfg "STANDARD")
            (sample.env_put_from 1) (d_files sample.disk_one) backup.statePath
            [("2024-03", ["lib/a.jpg"],
              backup.start (sample.world sample.disk_one) [])] 0%nat)
            [0%nat] _).
  discriminate.
Defined.

(* --------------------------------------------------------------------- *)
(** ** Keys of the object store                                          *)
(* --------------------------------------------------------------------- *)

Lemma append_cons (c : ascii) (a b : string) :
  String c a +:+ b = String c (a +:+ b).
Proof. reflexivity. Qed.

Lemma append_empty_r (s : string) : s +:+ "" = s.
Proof.
  induction s as [|c s IH]; [reflexivity|].
  rewrite append_cons. now f_equal.
Qed.

Lemma append_length (a b : string) :
  String.length (a +:+ b) = (String.length a + String.length b)%nat.
Proof.
  induction a as [|c a IH]; [reflexivity|].
  rewrite append_cons. cbn [String.length Nat.add]. now rewrite IH.
Qed.

(** A stretch without a brace is copied by [ReplaceAll] when the text to
    replace starts with a brace. *)
Lemma replace_go_no_brace (old' new a rest : string) :
  keyspec.no_brace a = true ->
  GoStr.replace_go (String "{"%char old') new (a +:+ rest) 0
  = a +:+ GoStr.replace_go (String "{"%char old') new rest 0.
Proof.
  induction a as [|c a IH]; intros H; [reflexivity|].
  cbn [keyspec.no_brace] in H. apply andb_true_iff in H as [Hc Ha].
  apply negb_true_iff, Ascii.eqb_neq in Hc.
  rewrite !append_cons. cbn [GoStr.replace_go String.prefix].
  destruct (ascii_dec "{" c) as [Heq|_]; [congruence|].
  now rewrite IH.
Qed.

(** X12. With an empty [s3_key_format] the key of an archive is the year,
    a slash and the archive name (for a year without a brace: the archive
    name is inserted as it is, also when it contains a placeholder).  A
    format without any brace is returned unchanged, so that all archives
    get one and the same key. *)
Theorem X12_S3Key_layout :
  forall (cfg : photosbackup.Config) (year zipName : string),
    (photosbackup.S3KeyFormat cfg = "" -> keyspec.no_brace year = true ->
     backup.S3Key cfg year zipName = year +:+ "/" +:+ zipName)
    /\ (photosbackup.S3KeyFormat cfg <> "" ->
        keyspec.no_brace (photosbackup.S3KeyFormat cfg) = true ->
        backup.S3Key cfg year zipName = photosbackup.S3KeyFormat cfg).
Proof.
  intros cfg year zipName. split.
  - intros Hf Hy. unfold backup.S3Key. rewrite Hf. cbn [String.eqb].
    unfold GoStr.ReplaceAll.
    assert (H1 : GoStr.replace_go "{year}" year "{year}/{zip}" 0
                 = year +:+ "/{zip}").
    { cbn. reflexivity. }
    rewrite H1. rewrite replace_go_no_brace by exact Hy.
    cbn. now rewrite append_empty_r.
  - intros Hne Hb. unfold backup.S3Key.
    destruct (String.eqb (photosbackup.S3KeyFormat cfg) "") eqn:E;
      [apply String.eqb_eq in E; congruence|].
    unfold GoStr.ReplaceAll.
    assert (H : forall old' new,
              GoStr.replace_go (String "{"%char old') new
                (photosbackup.S3KeyFormat cfg) 0
              = photosbackup.S3KeyFormat cfg).
    { intros old' new.
      rewrite <- (append_empty_r (photosbackup.S3KeyFormat cfg)) at 1.
      rewrite replace_go_no_brace by exact Hb.
      cbn [GoStr.replace_go]. apply append_empty_r. }
    now rewrite !H.
Qed.

Lemma X12_witness :
  backup.S3Key (sample.cfg "STANDARD") "2024" "2024-03_20250101T020000.zip"
  = "2024/2024-03_20250101T020000.zip".
Proof.
  refine (proj1 (X12_S3Key_layout (sample.cfg "STANDARD") "2024"
                   "2024-03_20250101T020000.zip") eq_refl eq_refl).
Defined.

(* --------------------------------------------------------------------- *)
(** ** The shape of a group key                                          *)
(* --------------------------------------------------------------------- *)

Lemma year_digits (y : Z) :
  0 <= y <= 9999 ->
  String.length (GoStr.fmt_0d 4 y) = 4%nat
  /\ keyspec.no_hyphen (GoStr.fmt_0d 4 y) = true.
Proof.
  intros Hy.
  assert (Hall : keyspec.holds_from
                   (fun y => (String.length (GoStr.fmt_0d 4 y) =? 4)%nat
                             && keyspec.no_hyphen (GoStr.fmt_0d 4 y))
                   (Z.to_nat 10000) 0 = true)
    by (vm_compute; reflexivity).
  pose proof (holds_from_spec _ _ _ Hall y ltac:(lia)) as H.
  cbv beta in H. apply andb_true_iff in H as [H1 H2].
  apply Nat.eqb_eq in H1. auto.
Qed.

Lemma month_digits (m : Z) :
  1 <= m <= 12 -> String.length (GoStr.fmt_0d 2 m) = 2%nat.
Proof.
  intros Hm.
  assert (Hall : keyspec.holds_from
                   (fun m => (String.length (GoStr.fmt_0d 2 m) =? 2)%nat)
                   12 1 = true)
    by (vm_compute; reflexivity).
  pose proof (holds_from_spec _ _ _ Hall m ltac:(lia)) as H.
  cbv beta in H. now apply Nat.eqb_eq in H.
Qed.

Lemma before_sep_cons (sep c : ascii) (r : string) :
  GoStr.before_sep sep (String c r)
  = if Ascii.eqb c sep then "" else String c (GoStr.before_sep sep r).
Proof. reflexivity. Qed.

Lemma before_sep_no_hyphen (a b : string) :
  keyspec.no_hyphen a = true ->
  GoStr.before_sep "-" (a +:+ String "-"%char b) = a.
Proof.
  induction a as [|c a IH]; intros H.
  - reflexivity.
  - cbn [keyspec.no_hyphen] in H. apply andb_true_iff in H as [Hc Ha].
    apply negb_true_iff in Hc.
    rewrite append_cons, before_sep_cons, Hc. now rewrite IH.
Qed.

(** X13. The month of a timestamp is always between 1 and 12.  For a
    timestamp of the years 0 to 9999 the group key has seven characters,
    four for the year and two for the month around a hyphen, and the part
    before the first hyphen -- which [main] uses as the year folder of
    the key -- is the four-digit year.  For a timestamp before the year 0
    that part is empty. *)
Theorem X13_group_key_shape :
  forall t : GoTime.Time,
    1 <= GoTime.Month t <= 12
    /\ (0 <= GoTime.Year t <= 9999 ->
        String.length (photosbackup.group_key t) = 7%nat
        /\ String.length (GoStr.fmt_0d 4 (GoTime.Year t)) = 4%nat
        /\ GoStr.before_sep "-" (photosbackup.group_key t)
           = GoStr.fmt_0d 4 (GoTime.Year t))
    /\ (GoTime.Year t < 0 ->
        GoStr.before_sep "-" (photosbackup.group_key t) = "").
Proof.
  intros t. pose proof (month_range t) as Hm.
  split; [exact Hm|]. split.
  - intros Hy. destruct (year_digits _ Hy) as [Hl Hn].
    unfold photosbackup.group_key. split; [|split].
    + rewrite !append_length, Hl, (month_digits _ Hm). reflexivity.
    + exact Hl.
    + change ("-" +:+ GoStr.fmt_0d 2 (GoTime.Month t))
        with (String "-"%char (GoStr.fmt_0d 2 (GoTime.Month t))).
      now apply before_sep_no_hyphen.
  - intros Hy. unfold photosbackup.group_key, GoStr.fmt_0d.
    replace (GoTime.Year t <? 0) with true by (symmetry; now apply Z.ltb_lt).
    reflexivity.
Qed.

Lemma X13_witness :
  GoStr.before_sep "-" (photosbackup.group_key sample.march) = "2024".
Proof.
  refine (proj2 (proj2 (proj1 (proj2 (X13_group_key_shape sample.march)) _))).
  vm_compute. split; discriminate.
Defined.

(* --------------------------------------------------------------------- *)
(** ** Archive names                                                     *)
(* --------------------------------------------------------------------- *)

Lemma append_cancel_r (a b s : string) : a +:+ s = b +:+ s -> a = b.
Proof.
  revert b. induction a as [|c a IH]; intros [|d b] H.
  - reflexivity.
  - apply (f_equal String.length) in H.
    rewrite !append_length in H. cbn [String.length] in H. lia.
  - apply (f_equal String.length) in H.
    rewrite !append_length in H. cbn [String.length] in H. lia.
  - rewrite !append_cons in H. injection H as -> H. f_equal. now apply IH.
Qed.

(** X14. The archive name of a group carries its month and the clock
    reading cut to the second.  At one clock reading two different months
    never get the same name; but two readings within one second give the
    same month the same name, and with it the same key. *)
Theorem X14_archive_names :
  (forall (ym1 ym2 : string) (now : GoTime.Time),
     backup.zip_name ym1 now = backup.zip_name ym2 now -> ym1 = ym2)
  /\ (forall (cfg : photosbackup.Config) (ym : string) (t1 t2 : GoTime.Time),
        GoTime.absSec t1 = GoTime.absSec t2 ->
        backup.zip_name ym t1 = backup.zip_name ym t2
        /\ backup.key_for cfg ym (backup.zip_name ym t1)
           = backup.key_for cfg ym (backup.zip_name ym t2)).
Proof.
  split.
  - intros ym1 ym2 now H. unfold backup.zip_name in H.
    now apply append_cancel_r in H.
  - intros cfg ym t1 t2 H.
    assert (E : backup.zip_name ym t1 = backup.zip_name ym t2).
    { unfold backup.zip_name. now rewrite (format_compact_second t1 t2 H). }
    split; [exact E|now rewrite E].
Qed.

Lemma X14_witness :
  backup.zip_name "2024-03" (GoTime.Date 2025 1 1 2 0 0)
  = backup.zip_name "2024-03" (GoTime.Date 2025 1 1 2 0 0 + 999999999).
Proof.
  refine (proj1 (proj2 X14_archive_names (sample.cfg "STANDARD") "2024-03"
                   (GoTime.Date 2025 1 1 2 0 0)
                   (GoTime.Date 2025 1 1 2 0 0 + 999999999) _)).
  vm_compute. reflexivity.
Defined.

(* --------------------------------------------------------------------- *)
(** ** Saving and loading the ledger                                     *)
(* --------------------------------------------------------------------- *)


